(** * Multi-layer clustering: a shallow embedding of
      [data_structures/multi_layer_cluster.py] and its verification.

    Points are tuples of reals.  Coordinates and radii are modelled as exact
    rationals ([Q]); a tuple is a [list Q].  Python exceptions are modelled
    by an error result; the object [self] by an explicit record that every
    method receives and gives back. *)

From Stdlib Require Import List Arith PeanoNat Bool Lia QArith Lqa
  Permutation Relation_Operators.
Import ListNotations.

Set Implicit Arguments.
Open Scope nat_scope.

(** ** Exceptions *)

Inductive error : Type :=
| ValueError   (* raised by the spatial index *)
| IndexError.  (* list index out of range *)

Inductive result (A : Type) : Type :=
| Ok (a : A)
| Raise (e : error).

Arguments Ok {A} a.
Arguments Raise {A} e.

Definition bind {A B : Type} (c : result A) (k : A -> result B) : result B :=
  match c with
  | Ok a => k a
  | Raise e => Raise e
  end.

Notation "x <- c ;; k" := (bind c (fun x => k))
  (at level 61, c at next level, right associativity).
Notation "' p <- c ;; k" := (bind c (fun p => k))
  (at level 61, p pattern, c at next level, right associativity).

Definition is_ok {A : Type} (c : result A) : bool :=
  match c with Ok _ => true | Raise _ => false end.

(** [l[i]]: Python list indexing (non-negative indices only). *)
Definition get {A : Type} (l : list A) (i : nat) : result A :=
  match nth_error l i with
  | Some x => Ok x
  | None => Raise IndexError
  end.

(** A [for] loop whose body may raise: the accumulator is threaded through
    the iterations, the first exception ends the loop. *)
Fixpoint foldM {A B : Type} (f : A -> B -> result A) (l : list B) (a : A)
  : result A :=
  match l with
  | [] => Ok a
  | x :: l' => a' <- f a x ;; foldM f l' a'
  end.

(** A list comprehension whose element expression may raise. *)
Fixpoint mapM {A B : Type} (f : A -> result B) (l : list A)
  : result (list B) :=
  match l with
  | [] => Ok []
  | x :: l' => y <- f x ;; ys <- mapM f l' ;; Ok (y :: ys)
  end.

(** [range(a, b)] *)
Definition range (a b : nat) : list nat := seq a (b - a).

(** [enumerate(l)] *)
Definition enumerate {A : Type} (l : list A) : list (nat * A) :=
  combine (seq 0 (length l)) l.

(** ** Points and layers *)

Definition Point : Type := list Q.
Definition Layer : Type := list Point.

(** ** The spatial index

    [scipy.spatial.KDTree] is an external dependency; its code is not part
    of the repository.  It is modelled by what section 4.1 of the
    specification and the source say about it.  Distances are compared
    through their squares, so no square root is needed.  The order of the
    indices inside one answer is not used by any theorem below.

    Coordinates are exact rationals.  What the library refuses beyond a
    mismatch of dimensionality (points without coordinates, coordinates or
    squared extents outside the range of a float) has no counterpart in
    the model: a statement about the contents of a result is made for
    calls that return. *)

(** Modelled from the spec: the spatial index of one layer ([SpatialIndex],
    section 4.1; [spatial.KDTree] in the source), built once from the
    layer's points. *)
Record KDTree : Type := mkKDTree {
  data : list Point;    (* the n points *)
  m : nat               (* their dimensionality *)
}.

(** Modelled from the spec: the points of a layer are "all of the same
    dimensionality" (section 6). *)
Definition uniform (layer : Layer) : bool :=
  match layer with
  | [] => true
  | p :: ps => forallb (fun q => length q =? length p) ps
  end.

(** Modelled from the spec: the constructor of [spatial.KDTree].  An index
    is built from an (n, m) array of points: a sequence that is empty (the
    source's comment: "Handle KDTree exception for empty list") or whose
    tuples differ in arity is refused. *)
Definition KDTree_new (layer : Layer) : result KDTree :=
  match layer with
  | [] => Raise ValueError
  | p :: _ => if uniform layer
              then Ok {| data := layer; m := length p |}
              else Raise ValueError
  end.

(** Modelled from the spec: the squared Euclidean distance of two points
    of the same dimensionality. *)
Definition sqdist (p q : Point) : Q :=
  fold_right (fun xy acc => (fst xy - snd xy) * (fst xy - snd xy) + acc)%Q
             0%Q (combine p q).

(** Modelled from the spec: "distance <= radius", boundary included
    (section 4.1).  The comparison is made on the squares,
    [sqdist p q <= r * r], as the index makes it: for the non-negative
    radii of the specification this is the comparison of the distance with
    the radius, and a negative radius, which the source passes on
    unchecked, matches as its absolute value. *)
Definition within (p q : Point) (r : Q) : bool :=
  Qle_bool (sqdist p q) (r * r)%Q.

(** Modelled from the spec: the local indices of the points of [pts]
    within [r] of [p]. *)
Definition ball (pts : list Point) (p : Point) (r : Q) : list nat :=
  map fst (filter (fun jq => within p (snd jq) r) (enumerate pts)).

(** Modelled from the spec: [query_ball_tree] of [spatial.KDTree]
    ([query_within] and [query_against] of section 4.1): for every point
    of [self], the local indices of the points of [other] within [r].  A
    query between two indexes of different dimensionality is refused. *)
Definition query_ball_tree (self other : KDTree) (r : Q)
  : result (list (list nat)) :=
  if m self =? m other
  then Ok (map (fun p => ball (data other) p r) (data self))
  else Raise ValueError.

(** ** [_shift_idx] *)

Definition _shift_idx (match_ij : list (list nat)) (start_idx : nat)
  : list (list nat) :=
  map (fun match_i => map (fun match_idx => match_idx + start_idx) match_i)
      match_ij.

(** ** The class [MultiLayerCluster] *)

Record MultiLayerCluster : Type := mkMLC {
  layers : list Layer;
  match_all_layers : list (list nat);
  layers_combined : list Point;
  layer_start_idx : list nat;
  layers_tree : list (option KDTree);
  num_layers : nat
}.

Definition set_match_all_layers (self : MultiLayerCluster)
  (v : list (list nat)) : MultiLayerCluster :=
  {| layers := layers self;
     match_all_layers := v;
     layers_combined := layers_combined self;
     layer_start_idx := layer_start_idx self;
     layers_tree := layers_tree self;
     num_layers := num_layers self |}.

(** The body of the constructor's loop, for one [layer]. *)
Definition init_layer (self : MultiLayerCluster) (layer : Layer)
  : result MultiLayerCluster :=
  let start := layer_start_idx self ++ [length (layers_combined self)] in
  tree <- (if 0 <? length layer
           then t <- KDTree_new layer ;; Ok (Some t)
           else Ok None) ;;
  Ok {| layers := layers self;
        match_all_layers := match_all_layers self;
        layers_combined := layers_combined self ++ layer;
        layer_start_idx := start;
        layers_tree := layers_tree self ++ [tree];
        num_layers := num_layers self |}.

Definition __init__ (layers : list Layer) : result MultiLayerCluster :=
  foldM init_layer layers
        {| layers := layers;
           match_all_layers := [];
           layers_combined := [];
           layer_start_idx := [];
           layers_tree := [];
           num_layers := length layers |}.

(** The body of the inner loop of [cluster_all_layers]: layer [i] (index
    [tree_i], running neighbour lists [match_i]) against layer [j]. *)
Definition cross_layer (self : MultiLayerCluster) (other_r : Q) (i : nat)
  (tree_i : KDTree) (match_i : list (list nat)) (j : nat)
  : result (list (list nat)) :=
  tree_j <- get (layers_tree self) j ;;
  match_ij <- match tree_j with
              | Some tree_j => query_ball_tree tree_i tree_j other_r
              | None =>
                  layer_i <- get (layers self) i ;;
                  Ok (map (fun _ => []) (range 0 (length layer_i)))
              end ;;
  start_j <- get (layer_start_idx self) j ;;
  let match_ij := _shift_idx match_ij start_j in
  layer_i <- get (layers self) i ;;
  mapM (fun k => a <- get match_i k ;; b <- get match_ij k ;; Ok (a ++ b))
       (range 0 (length layer_i)).

(** The body of the outer loop: [acc] is [self.match_all_layers]. *)
Definition layer_step (self : MultiLayerCluster) (self_r other_r : Q)
  (acc : list (list nat)) (i : nat) : result (list (list nat)) :=
  tree_i <- get (layers_tree self) i ;;
  match_i <- match tree_i with
             | Some tree_i =>
                 match_ii <- query_ball_tree tree_i tree_i self_r ;;
                 start_i <- get (layer_start_idx self) i ;;
                 foldM (cross_layer self other_r i tree_i)
                       (range (i + 1) (num_layers self))
                       (_shift_idx match_ii start_i)
             | None => Ok []
             end ;;
  Ok (acc ++ match_i).

(** [cluster_all_layers]: the list it returns is the stored list itself.
    When a query raises, the call gives back no instance: the entries the
    earlier iterations have already appended to the stored list are not
    modelled. *)
Definition cluster_all_layers (self : MultiLayerCluster) (self_r other_r : Q)
  : result (MultiLayerCluster * list (list nat)) :=
  matches <- foldM (layer_step self self_r other_r)
                   (range 0 (num_layers self)) (match_all_layers self) ;;
  let self' := set_match_all_layers self matches in
  Ok (self', match_all_layers self').

(** ** The union-find structure

    [data_structures/union_find.py], the class [UnionFind] that
    [compress_match] imports, is not among the available sources.  It is
    modelled by section 4.4 of the specification. *)

(** Modelled from the spec: the state of [UnionFind], a parent array and a
    rank array over the fixed universe [0..n-1] (sections 3 and 4.4). *)
Record UnionFind : Type := mkUF {
  parent : list nat;
  rank : list nat
}.

(** Modelled from the spec: [UnionFind(n)]; initially every index is its
    own singleton set. *)
Definition UnionFind_new (n : nat) : UnionFind :=
  {| parent := seq 0 n; rank := repeat 0 n |}.

(** [l[i] = v] *)
Fixpoint update {A : Type} (l : list A) (i : nat) (v : A) : list A :=
  match l, i with
  | [], _ => []
  | _ :: l', 0 => v :: l'
  | x :: l', S i' => x :: update l' i' v
  end.

(** Modelled from the spec: the loop of [find],
    [while parent[a] != a: a = parent[a]], at most [fuel] iterations. *)
Fixpoint find_aux (fuel : nat) (parent : list nat) (a : nat) : nat :=
  match fuel with
  | 0 => a
  | S fuel' =>
      let p := nth a parent a in
      if p =? a then a else find_aux fuel' parent p
  end.

(** Modelled from the spec: the canonical representative of the set of
    [a].  The fuel is the size of the universe, which is enough
    ([find_aux_root_of] below). *)
Definition root (uf : UnionFind) (a : nat) : nat :=
  find_aux (length (parent uf)) (parent uf) a.

(** Modelled from the spec: [find(a)]; an index outside the universe is an
    [IndexError], as for any Python list. *)
Definition find (uf : UnionFind) (a : nat) : result nat :=
  if a <? length (parent uf) then Ok (root uf a) else Raise IndexError.

(** Modelled from the spec: [union(a, b)] merges the sets of [a] and [b],
    linking the root of lower rank below the other one (union by rank); on
    two members of one set, and for [a == b], it changes nothing. *)
Definition union (uf : UnionFind) (a b : nat) : result UnionFind :=
  ra <- find uf a ;;
  rb <- find uf b ;;
  if ra =? rb then Ok uf
  else
    let ka := nth ra (rank uf) 0 in
    let kb := nth rb (rank uf) 0 in
    if ka <? kb then
      Ok {| parent := update (parent uf) ra rb; rank := rank uf |}
    else if kb <? ka then
      Ok {| parent := update (parent uf) rb ra; rank := rank uf |}
    else
      Ok {| parent := update (parent uf) rb ra;
            rank := update (rank uf) ra (S ka) |}.

(** Modelled from the spec: [list_unions()], the mapping from each
    distinct root to the increasing list of all indices whose root it is,
    as an association list with one entry per root. *)
Definition list_unions (uf : UnionFind) : list (nat * list nat) :=
  let universe := seq 0 (length (parent uf)) in
  map (fun r => (r, filter (fun i => root uf i =? r) universe))
      (nodup Nat.eq_dec (map (root uf) universe)).

(** ** [compress_match] *)

Definition compress_match (self : MultiLayerCluster)
  : result (MultiLayerCluster * list (nat * list nat)) :=
  uf <- foldM (fun uf ic =>
                 foldM (fun uf j => union uf (fst ic) j) (snd ic) uf)
              (enumerate (match_all_layers self))
              (UnionFind_new (length (match_all_layers self))) ;;
  Ok (self, list_unions uf).

(** ** The demonstration at the end of the module *)

Definition l1 : Layer := [[1; 1]; [2; 2]; [3; 3]]%Q.
Definition l2 : Layer :=
  [[11 # 10; 11 # 10]; [9 # 10; 9 # 10]; [21 # 10; 21 # 10];
   [32 # 10; 32 # 10]]%Q.
Definition l3 : Layer := [].
Definition l4 : Layer := [[115 # 100; 115 # 100]; [31 # 10; 31 # 10]]%Q.
Definition demo_layers : list Layer := [l1; l2; l3; l4].
Definition cluster_r : Q := 2 # 10.
Definition dsa_r : Q := 2 # 10.

(** One full run on a fresh instance: the adjacency list and the clusters. *)
Definition run (layers : list Layer) (self_r other_r : Q)
  : result (list (list nat) * list (nat * list nat)) :=
  dsa <- __init__ layers ;;
  '(dsa, result) <- cluster_all_layers dsa self_r other_r ;;
  '(_, clusters) <- compress_match dsa ;;
  Ok (result, clusters).

(** ** Vocabulary of the statements

    The definitions below are not part of the program: they name what the
    theorems talk about. *)

(** The start offsets of the layers [ls], the first one being [off]. *)
Fixpoint offsets (off : nat) (ls : list Layer) : list nat :=
  match ls with
  | [] => []
  | l :: ls' => off :: offsets (off + length l) ls'
  end.

(** The index the constructor stores for a layer whose points agree in
    arity: none for an empty layer. *)
Definition tree_of (l : Layer) : option KDTree :=
  match l with
  | [] => None
  | p :: _ => Some {| data := l; m := length p |}
  end.

(** The instance the constructor returns for [ls], when it returns. *)
Definition built (ls : list Layer) : MultiLayerCluster :=
  {| layers := ls;
     match_all_layers := [];
     layers_combined := concat ls;
     layer_start_idx := offsets 0 ls;
     layers_tree := map tree_of ls;
     num_layers := length ls |}.

(** Element-wise concatenation of two lists of neighbour lists. *)
Definition zip_app (a b : list (list nat)) : list (list nat) :=
  map (fun ab => fst ab ++ snd ab) (combine a b).

(** The inner loop of [cluster_all_layers] as a recursion on the layers
    that follow layer [i]; [off] is the offset of the first of them. *)
Fixpoint cross_from (ti : KDTree) (r : Q) (off : nat) (rest : list Layer)
  (acc : list (list nat)) : result (list (list nat)) :=
  match rest with
  | [] => Ok acc
  | lj :: rest' =>
      mij <- match tree_of lj with
             | Some tj => query_ball_tree ti tj r
             | None => Ok (map (fun _ => []) (range 0 (length (data ti))))
             end ;;
      cross_from ti r (off + length lj) rest'
                 (zip_app acc (_shift_idx mij off))
  end.

(** The neighbour lists of one layer [l] at offset [off], followed by the
    layers [rest]. *)
Definition layer_adj (r1 r2 : Q) (off : nat) (l : Layer) (rest : list Layer)
  : result (list (list nat)) :=
  match tree_of l with
  | Some ti =>
      mii <- query_ball_tree ti ti r1 ;;
      cross_from ti r2 (off + length l) rest (_shift_idx mii off)
  | None => Ok []
  end.

(** The outer loop as a recursion on the layers. *)
Fixpoint adjacency (r1 r2 : Q) (off : nat) (ls : list Layer)
  : result (list (list nat)) :=
  match ls with
  | [] => Ok []
  | l :: rest =>
      this <- layer_adj r1 r2 off l rest ;;
      more <- adjacency r1 r2 (off + length l) rest ;;
      Ok (this ++ more)
  end.

(** All points of all layers have the same arity. *)
Definition same_dimension (ls : list Layer) : Prop :=
  forall la lb p q, In la ls -> In lb ls -> In p la -> In q lb ->
                    length p = length q.

(** Every layer is uniform in itself. *)
Definition each_uniform (ls : list Layer) : Prop :=
  forall l p q, In l ls -> In p l -> In q l -> length p = length q.

(** Two points at the same place. *)
Definition coincident (p q : Point) : Prop := Forall2 Qeq p q.

(** Membership in one cluster of a partition. *)
Definition same_cluster (clusters : list (nat * list nat)) (a b : nat)
  : Prop :=
  exists r members, In (r, members) clusters /\ In a members /\ In b members.

(** The edges an adjacency list records, and the connectivity they induce. *)
Definition edge (adj : list (list nat)) (a b : nat) : Prop :=
  a < length adj /\ In b (nth a adj []).

Definition connected (adj : list (list nat)) : nat -> nat -> Prop :=
  clos_refl_sym_trans nat (edge adj).

(** Every neighbour index is an index of the adjacency list itself. *)
Definition closed_adj (adj : list (list nat)) : Prop :=
  forall a b, In b (nth a adj []) -> b < length adj.

(** What the methods rely on: the fields the constructor has filled in
    for the layers [ls].  The stored match list is left free. *)
Definition instance_of (ls : list Layer) (self : MultiLayerCluster) : Prop :=
  layers self = ls /\
  layers_combined self = concat ls /\
  layer_start_idx self = offsets 0 ls /\
  layers_tree self = map tree_of ls /\
  num_layers self = length ls.

(** A layer is empty or its first point has arity [d]. *)
Definition dim_ok (d : nat) (l : Layer) : bool :=
  match l with
  | [] => true
  | p :: _ => length p =? d
  end.

(** The first points of the non-empty layers agree in arity. *)
Fixpoint consistent (ls : list Layer) : bool :=
  match ls with
  | [] => true
  | l :: rest =>
      match l with
      | [] => true
      | p :: _ => forallb (dim_ok (length p)) rest
      end && consistent rest
  end.

(** The invariant of the union-find structure: parents stay inside the
    universe and ranks grow strictly along parent links. *)
Definition wf_uf (uf : UnionFind) : Prop :=
  length (rank uf) = length (parent uf) /\
  forall a, a < length (parent uf) ->
    nth a (parent uf) a < length (parent uf) /\
    (nth a (parent uf) a <> a ->
     nth a (rank uf) 0 < nth (nth a (parent uf) a) (rank uf) 0).

(** [root_of p a r]: following the parent links of [p] from [a] ends in
    the root [r]. *)
Inductive root_of (p : list nat) : nat -> nat -> Prop :=
| root_here a :
    a < length p -> nth a p a = a -> root_of p a a
| root_step a r :
    a < length p -> nth a p a <> a -> root_of p (nth a p a) r ->
    root_of p a r.

(** The number of indices of rank above that of [a]: a bound on the length
    of the path from [a] to its root. *)
Definition above (uf : UnionFind) (a : nat) : nat :=
  length (filter (fun x => nth a (rank uf) 0 <? nth x (rank uf) 0)
                 (seq 0 (length (parent uf)))).

(** The unions [compress_match] performs, in order. *)
Definition edges (adj : list (list nat)) : list (nat * nat) :=
  flat_map (fun ic => map (pair (fst ic)) (snd ic)) (enumerate adj).

(** The adjacency list of the demonstration, and the instance after the
    demonstration's call of [cluster_all_layers]. *)
Definition demo_result : list (list nat) :=
  [[0; 3; 4]; [1; 5]; [2; 8]; [3; 7]; [4]; [5]; [6; 8]; [7]; [8]].

Definition demo_dsa : MultiLayerCluster :=
  set_match_all_layers (built demo_layers) demo_result.

(** ** Vocabulary of the further properties *)

(** [reachable ls k self]: [self] is an instance constructed from the
    layers [ls] on which [cluster_all_layers] has returned [k] times. *)
Inductive reachable (ls : list Layer) : nat -> MultiLayerCluster -> Prop :=
| reach_init st :
    __init__ ls = Ok st -> reachable ls 0 st
| reach_call k st r1 r2 st' res :
    reachable ls k st ->
    cluster_all_layers st r1 r2 = Ok (st', res) ->
    reachable ls (S k) st'.

(** The number of the layer that holds the global index [x]. *)
Fixpoint layer_of (ls : list Layer) (x : nat) : nat :=
  match ls with
  | [] => 0
  | l :: rest =>
      if x <? length l then 0 else S (layer_of rest (x - length l))
  end.

(** The proximity graph of the points: two global indices are adjacent
    when their points are within the self radius and in one layer, or
    within the cross-layer radius and in two different layers. *)
Definition near (ls : list Layer) (r1 r2 : Q) (x y : nat) : Prop :=
  x < length (concat ls) /\ y < length (concat ls) /\
  within (nth x (concat ls) []) (nth y (concat ls) [])
         (if layer_of ls x =? layer_of ls y then r1 else r2) = true.

(** [layer_perm ls ls' f f']: the layers [ls'] are the layers [ls] in
    another order; layer [i] of [ls] is layer [f i] of [ls'], and [f'] is
    the inverse renumbering. *)
Definition layer_perm (ls ls' : list Layer) (f f' : nat -> nat) : Prop :=
  length ls' = length ls /\
  (forall i, i < length ls ->
     f i < length ls /\ f' (f i) = i /\ nth (f i) ls' [] = nth i ls []) /\
  (forall j, j < length ls -> f' j < length ls /\ f (f' j) = j).

(** The global index in [ls'] of the point with global index [x] in [ls]:
    the same position in the renumbered layer. *)
Definition relabel (ls ls' : list Layer) (f : nat -> nat) (x : nat) : nat :=
  nth (f (layer_of ls x)) (offsets 0 ls') 0
  + (x - nth (layer_of ls x) (offsets 0 ls) 0).

(** * Properties *)

(** ** The error monad and list indexing *)

Lemma bind_ok_inv (A B : Type) (c : result A) (k : A -> result B) (b : B) :
  bind c k = Ok b -> exists a, c = Ok a /\ k a = Ok b.
Proof.
  destruct c as [a|e]; simpl; intros H; [eauto | discriminate].
Qed.

Lemma get_ok_iff (A : Type) (l : list A) (i : nat) (x : A) :
  get l i = Ok x <-> nth_error l i = Some x.
Proof.
  unfold get. destruct (nth_error l i); split; intros H;
    inversion H; subst; reflexivity.
Qed.

Lemma get_middle (A : Type) (l1 l2 : list A) (x : A) :
  get (l1 ++ x :: l2) (length l1) = Ok x.
Proof.
  apply get_ok_iff. rewrite nth_error_app2 by lia.
  rewrite Nat.sub_diag. reflexivity.
Qed.

Lemma foldM_app (A B : Type) (f : A -> B -> result A) (l1 l2 : list B) (a : A) :
  foldM f (l1 ++ l2) a = (a' <- foldM f l1 a ;; foldM f l2 a').
Proof.
  revert a. induction l1 as [|x l1 IH]; intros a; simpl; [reflexivity|].
  destruct (f a x) as [a'|e]; simpl; [apply IH | reflexivity].
Qed.

Lemma range_cons (a b : nat) : a < b -> range a b = a :: range (S a) b.
Proof.
  intros H. unfold range. replace (b - a) with (S (b - S a)) by lia.
  reflexivity.
Qed.

Lemma range_nil (a b : nat) : b <= a -> range a b = [].
Proof.
  intros H. unfold range. replace (b - a) with 0 by lia. reflexivity.
Qed.

(** The comprehension [[a[k] + b[k] for k in range(n)]] on two lists of
    length [n]. *)
Lemma mapM_zip_gen (pa pb a b : list (list nat)) :
  length pa = length pb -> length a = length b ->
  mapM (fun k => x <- get (pa ++ a) k ;; y <- get (pb ++ b) k ;; Ok (x ++ y))
       (seq (length pa) (length a)) = Ok (zip_app a b).
Proof.
  revert pa pb b. induction a as [|x a IH]; intros pa pb b Hp Hl.
  - reflexivity.
  - destruct b as [|y b]; [discriminate|]. simpl in Hl.
    cbn [length seq mapM]. rewrite get_middle. cbn [bind].
    rewrite Hp, get_middle. cbn [bind].
    specialize (IH (pa ++ [x]) (pb ++ [y]) b).
    rewrite !length_app in IH. simpl in IH.
    rewrite <- !app_assoc in IH. simpl in IH.
    replace (length pa + 1) with (S (length pa)) in IH by lia.
    rewrite <- Hp. rewrite IH by lia. reflexivity.
Qed.

Lemma mapM_zip (a b : list (list nat)) (n : nat) :
  length a = n -> length b = n ->
  mapM (fun k => x <- get a k ;; y <- get b k ;; Ok (x ++ y)) (range 0 n)
  = Ok (zip_app a b).
Proof.
  intros Ha Hb. unfold range. rewrite Nat.sub_0_r. subst n.
  apply (mapM_zip_gen [] [] a b); [reflexivity | lia].
Qed.

Lemma zip_app_length (a b : list (list nat)) :
  length a = length b -> length (zip_app a b) = length a.
Proof.
  intros H. unfold zip_app. rewrite length_map, length_combine. lia.
Qed.

Lemma shift_idx_length (mm : list (list nat)) (s : nat) :
  length (_shift_idx mm s) = length mm.
Proof. unfold _shift_idx. apply length_map. Qed.

(** ** The constructor *)

Lemma tree_of_new (l : Layer) :
  (if 0 <? length l then t <- KDTree_new l ;; Ok (Some t) else Ok None)
  = if uniform l then Ok (tree_of l) else Raise ValueError.
Proof.
  destruct l as [|p ps]; [reflexivity|].
  cbn [length Nat.ltb Nat.leb KDTree_new tree_of].
  destruct (uniform (p :: ps)); reflexivity.
Qed.

Lemma offsets_app (off : nat) (l1 l2 : list Layer) :
  offsets off (l1 ++ l2)
  = offsets off l1 ++ offsets (off + length (concat l1)) l2.
Proof.
  revert off. induction l1 as [|l l1 IH]; intros off; simpl.
  - f_equal. lia.
  - rewrite IH. rewrite length_app. do 3 f_equal. lia.
Qed.

Lemma foldM_init_layer (ls : list Layer) (self : MultiLayerCluster) :
  foldM init_layer ls self =
  if forallb uniform ls
  then Ok {| layers := layers self;
             match_all_layers := match_all_layers self;
             layers_combined := layers_combined self ++ concat ls;
             layer_start_idx :=
               layer_start_idx self
               ++ offsets (length (layers_combined self)) ls;
             layers_tree := layers_tree self ++ map tree_of ls;
             num_layers := num_layers self |}
  else Raise ValueError.
Proof.
  revert self. induction ls as [|l ls IH]; intros self.
  - simpl. rewrite !app_nil_r. destruct self; reflexivity.
  - cbn [foldM forallb]. unfold init_layer at 1. rewrite tree_of_new.
    destruct (uniform l); cbn [bind andb]; [|reflexivity].
    rewrite IH. cbn [layers match_all_layers layers_combined
                     layer_start_idx layers_tree num_layers].
    destruct (forallb uniform ls); [|reflexivity].
    cbn [concat map offsets]. rewrite <- !app_assoc, length_app.
    reflexivity.
Qed.

Lemma init_spec (ls : list Layer) :
  __init__ ls = if forallb uniform ls then Ok (built ls) else Raise ValueError.
Proof.
  unfold __init__. rewrite foldM_init_layer. reflexivity.
Qed.

Lemma init_ok_built (ls : list Layer) (st : MultiLayerCluster) :
  __init__ ls = Ok st -> st = built ls /\ forallb uniform ls = true.
Proof.
  rewrite init_spec. destruct (forallb uniform ls); intros H;
    inversion H; auto.
Qed.

(** ** The loops of [cluster_all_layers] as recursions on the layers *)

Lemma built_instance (ls : list Layer) : instance_of ls (built ls).
Proof. repeat split. Qed.

Lemma set_match_instance (ls : list Layer) (self : MultiLayerCluster)
  (v : list (list nat)) :
  instance_of ls self -> instance_of ls (set_match_all_layers self v).
Proof. intros H. exact H. Qed.

Lemma offsets_length (off : nat) (ls : list Layer) :
  length (offsets off ls) = length ls.
Proof.
  revert off. induction ls as [|l ls IH]; intros off; simpl; auto.
Qed.

Lemma get_offsets (pre : list Layer) (l : Layer) (post : list Layer) :
  get (offsets 0 (pre ++ l :: post)) (length pre) = Ok (length (concat pre)).
Proof.
  rewrite offsets_app. cbn [offsets].
  rewrite <- (offsets_length 0 pre) at 1. rewrite get_middle.
  reflexivity.
Qed.

Lemma get_tree (pre : list Layer) (l : Layer) (post : list Layer) :
  get (map tree_of (pre ++ l :: post)) (length pre) = Ok (tree_of l).
Proof.
  rewrite map_app. cbn [map].
  rewrite <- (length_map tree_of pre) at 1. apply get_middle.
Qed.

Lemma query_length (t1 t2 : KDTree) (r : Q) (res : list (list nat)) :
  query_ball_tree t1 t2 r = Ok res -> length res = length (data t1).
Proof.
  unfold query_ball_tree. destruct (m t1 =? m t2); intros H; inversion H.
  apply length_map.
Qed.

Lemma cross_loop (self : MultiLayerCluster) (ls : list Layer) (r : Q)
  (i : nat) (ti : KDTree) :
  instance_of ls self ->
  nth_error ls i = Some (data ti) ->
  forall rest pre acc,
    ls = pre ++ rest ->
    length acc = length (data ti) ->
    foldM (cross_layer self r i ti) (range (length pre) (num_layers self)) acc
    = cross_from ti r (length (concat pre)) rest acc.
Proof.
  intros (Hl & _ & Ho & Ht & Hn) Hi.
  induction rest as [|lj rest IH]; intros pre acc Hls Hacc.
  - rewrite app_nil_r in Hls. rewrite Hn, Hls, range_nil by lia.
    reflexivity.
  - rewrite range_cons
      by (rewrite Hn, Hls, length_app; simpl; lia).
    assert (Hgt : get (layers_tree self) (length pre) = Ok (tree_of lj))
      by (rewrite Ht, Hls; apply get_tree).
    assert (Hgo : get (layer_start_idx self) (length pre)
                  = Ok (length (concat pre)))
      by (rewrite Ho, Hls; apply get_offsets).
    assert (Hgi : get (layers self) i = Ok (data ti))
      by (rewrite Hl; apply get_ok_iff; exact Hi).
    cbn [foldM cross_from]. unfold cross_layer at 1.
    rewrite Hgt, Hgo, Hgi. cbn [bind].
    set (mij := match tree_of lj with
                | Some tj => query_ball_tree ti tj r
                | None => Ok (map (fun _ => []) (range 0 (length (data ti))))
                end).
    assert (Hlen : forall res, mij = Ok res -> length res = length (data ti)).
    { intros res. unfold mij. destruct (tree_of lj).
      - apply query_length.
      - intros H; inversion H. unfold range.
        rewrite length_map, length_seq. lia. }
    destruct mij as [res|e]; cbn [bind]; [|reflexivity].
    rewrite mapM_zip
      by (rewrite ?shift_idx_length; auto).
    cbn [bind].
    specialize (IH (pre ++ [lj]) (zip_app acc (_shift_idx res (length (concat pre))))).
    rewrite length_app in IH. cbn [length] in IH.
    replace (length pre + 1) with (S (length pre)) in IH by lia.
    rewrite IH.
    + rewrite concat_app, length_app. cbn [concat]. rewrite app_nil_r.
      reflexivity.
    + rewrite <- app_assoc. exact Hls.
    + rewrite zip_app_length; rewrite ?shift_idx_length; auto.
      rewrite (Hlen res eq_refl). exact Hacc.
Qed.

Lemma tree_of_data (l : Layer) (t : KDTree) : tree_of l = Some t -> data t = l.
Proof.
  destruct l; simpl; intros H; inversion H; reflexivity.
Qed.

Lemma layer_loop (self : MultiLayerCluster) (ls : list Layer) (r1 r2 : Q) :
  instance_of ls self ->
  forall rest pre acc,
    ls = pre ++ rest ->
    foldM (layer_step self r1 r2) (range (length pre) (num_layers self)) acc
    = (more <- adjacency r1 r2 (length (concat pre)) rest ;; Ok (acc ++ more)).
Proof.
  intros Hinst. pose proof Hinst as (Hl & _ & Ho & Ht & Hn).
  induction rest as [|l rest IH]; intros pre acc Hls.
  - rewrite app_nil_r in Hls. rewrite Hn, Hls, range_nil by lia.
    simpl. rewrite app_nil_r. reflexivity.
  - rewrite range_cons
      by (rewrite Hn, Hls, length_app; simpl; lia).
    assert (Hgt : get (layers_tree self) (length pre) = Ok (tree_of l))
      by (rewrite Ht, Hls; apply get_tree).
    assert (Hgo : get (layer_start_idx self) (length pre)
                  = Ok (length (concat pre)))
      by (rewrite Ho, Hls; apply get_offsets).
    cbn [foldM adjacency]. unfold layer_step at 1.
    rewrite Hgt. cbn [bind]. unfold layer_adj.
    assert (Hpre : ls = (pre ++ [l]) ++ rest)
      by (rewrite <- app_assoc; exact Hls).
    assert (Hcat : length (concat (pre ++ [l]))
                   = length (concat pre) + length l).
    { rewrite concat_app, length_app. cbn [concat].
      rewrite app_nil_r. reflexivity. }
    assert (Hnext : length (pre ++ [l]) = S (length pre))
      by (rewrite length_app; simpl; lia).
    destruct (tree_of l) as [ti|] eqn:Hti.
    + pose proof (tree_of_data _ Hti) as Hd.
      destruct (query_ball_tree ti ti r1) as [mii|e] eqn:Hq;
        cbn [bind]; [|reflexivity].
      rewrite Hgo. cbn [bind].
      replace (length pre + 1) with (length (pre ++ [l])) by lia.
      assert (Hnth : nth_error ls (length pre) = Some (data ti))
        by (rewrite Hls, Hd, nth_error_app2, Nat.sub_diag by lia;
            reflexivity).
      assert (Hlen : length (_shift_idx mii (length (concat pre)))
                     = length (data ti))
        by (rewrite shift_idx_length; apply (query_length _ _ _ Hq)).
      rewrite (cross_loop r2 (length pre) ti Hinst Hnth rest (pre ++ [l])
                 _ Hpre Hlen).
      rewrite Hcat.
      destruct (cross_from ti r2 (length (concat pre) + length l) rest
                  (_shift_idx mii (length (concat pre)))) as [this|e];
        cbn [bind]; [|reflexivity].
      rewrite <- Hnext, (IH (pre ++ [l]) _ Hpre), Hcat.
      destruct (adjacency r1 r2 (length (concat pre) + length l) rest);
        cbn [bind]; [|reflexivity].
      rewrite app_assoc. reflexivity.
    + cbn [bind]. rewrite app_nil_r.
      rewrite <- Hnext, (IH (pre ++ [l]) _ Hpre), Hcat.
      destruct (adjacency r1 r2 (length (concat pre) + length l) rest);
        reflexivity.
Qed.

(** [cluster_all_layers] appends the adjacency list of the layers to the
    stored match list and returns the stored list. *)
Lemma cluster_spec (self : MultiLayerCluster) (ls : list Layer) (r1 r2 : Q) :
  instance_of ls self ->
  cluster_all_layers self r1 r2
  = (adj <- adjacency r1 r2 0 ls ;;
     Ok (set_match_all_layers self (match_all_layers self ++ adj),
         match_all_layers self ++ adj)).
Proof.
  intros Hinst. unfold cluster_all_layers.
  change 0 with (length (@nil Layer)) at 1.
  rewrite (layer_loop r1 r2 Hinst ls [] (match_all_layers self) eq_refl).
  cbn [concat length].
  destruct (adjacency r1 r2 0 ls); reflexivity.
Qed.

(** ** When the radius queries raise *)

Lemma cross_from_ok (ti : KDTree) (r : Q) (rest : list Layer) :
  forall off acc,
    is_ok (cross_from ti r off rest acc) = forallb (dim_ok (m ti)) rest.
Proof.
  induction rest as [|lj rest IH]; intros off acc; [reflexivity|].
  cbn [cross_from forallb]. destruct lj as [|q lj]; cbn [tree_of dim_ok bind].
  - apply IH.
  - unfold query_ball_tree. cbn [m]. rewrite (Nat.eqb_sym (length q)).
    destruct (m ti =? length q); cbn [bind andb]; [apply IH | reflexivity].
Qed.

Lemma layer_adj_ok (r1 r2 : Q) (off : nat) (l : Layer) (rest : list Layer) :
  is_ok (layer_adj r1 r2 off l rest)
  = match l with
    | [] => true
    | p :: _ => forallb (dim_ok (length p)) rest
    end.
Proof.
  unfold layer_adj. destruct l as [|p l]; [reflexivity|].
  cbn [tree_of]. unfold query_ball_tree. cbn [m].
  rewrite Nat.eqb_refl. cbn [bind]. apply cross_from_ok.
Qed.

Lemma adjacency_ok (r1 r2 : Q) (ls : list Layer) :
  forall off, is_ok (adjacency r1 r2 off ls) = consistent ls.
Proof.
  induction ls as [|l rest IH]; intros off; [reflexivity|].
  cbn [adjacency consistent].
  rewrite <- (layer_adj_ok r1 r2 off l rest), <- (IH (off + length l)).
  destruct (layer_adj r1 r2 off l rest); cbn [bind is_ok andb];
    [|reflexivity].
  destruct (adjacency r1 r2 (off + length l) rest); reflexivity.
Qed.

Lemma is_ok_true (A : Type) (c : result A) :
  is_ok c = true <-> exists a, c = Ok a.
Proof.
  destruct c; simpl; split; intros H; eauto; try discriminate.
  destruct H as [a H]. discriminate.
Qed.

Lemma uniform_iff (l : Layer) :
  uniform l = true <-> forall p q, In p l -> In q l -> length p = length q.
Proof.
  destruct l as [|p0 l]; simpl.
  - split; [intros _ p q [] | reflexivity].
  - rewrite forallb_forall. split.
    + intros H p q Hp Hq.
      assert (Hd : forall x, p0 = x \/ In x l -> length x = length p0).
      { intros x [<- | Hx]; [reflexivity|].
        apply Nat.eqb_eq, H, Hx. }
      rewrite (Hd p Hp), (Hd q Hq). reflexivity.
    + intros H x Hx. apply Nat.eqb_eq. apply H; auto.
Qed.

Lemma each_uniform_iff (ls : list Layer) :
  forallb uniform ls = true <-> each_uniform ls.
Proof.
  rewrite forallb_forall. unfold each_uniform. split.
  - intros H l p q Hl. apply uniform_iff, H, Hl.
  - intros H l Hl. apply uniform_iff. intros p q. apply H, Hl.
Qed.

Lemma consistent_same_dimension (ls : list Layer) :
  each_uniform ls -> (consistent ls = true <-> same_dimension ls).
Proof.
  induction ls as [|l rest IH]; intros Hu.
  - split; [intros _ la lb p q [] | reflexivity].
  - assert (Hur : each_uniform rest).
    { intros l' p q Hl'. apply Hu. right. exact Hl'. }
    specialize (IH Hur). cbn [consistent]. rewrite andb_true_iff, IH.
    assert (Hhead : forall p0 l0 lb p q, l = p0 :: l0 ->
              forallb (dim_ok (length p0)) rest = true ->
              In lb rest -> In p l -> In q lb -> length p = length q).
    { intros p0 l0 lb p q -> Hall Hlb Hp Hq.
      rewrite forallb_forall in Hall. specialize (Hall lb Hlb).
      destruct lb as [|q0 lb]; [destruct Hq|]. cbn [dim_ok] in Hall.
      apply Nat.eqb_eq in Hall.
      rewrite (Hu (p0 :: l0) p p0) by (simpl; auto).
      rewrite (Hu (q0 :: lb) q q0) by (simpl; auto).
      symmetry. exact Hall. }
    split.
    + intros [Hall Hrest] la lb p q [<- | Hla] [<- | Hlb] Hp Hq.
      * apply (Hu l); simpl; auto.
      * destruct l as [|p0 l0]; [destruct Hp|].
        apply (Hhead p0 l0 lb p q eq_refl Hall Hlb Hp Hq).
      * destruct l as [|p0 l0]; [destruct Hq|].
        symmetry. apply (Hhead p0 l0 la q p eq_refl Hall Hla Hq Hp).
      * apply (Hrest la lb); assumption.
    + intros Hs. split.
      * destruct l as [|p0 l0]; [reflexivity|].
        apply forallb_forall. intros lb Hlb.
        destruct lb as [|q0 lb]; [reflexivity|]. cbn [dim_ok].
        apply Nat.eqb_eq.
        apply (Hs (q0 :: lb) (p0 :: l0)); simpl; auto.
      * intros la lb p q Hla Hlb. apply Hs; right; assumption.
Qed.

(** ** Which indices a neighbour list holds *)

Lemma In_enumerate_gen (A : Type) (l : list A) (s j : nat) (x : A) :
  In (j, x) (combine (seq s (length l)) l)
  <-> s <= j /\ nth_error l (j - s) = Some x.
Proof.
  revert s. induction l as [|y l IH]; intros s; cbn [length seq combine].
  - split; [intros [] | intros [_ H]].
    destruct (j - s); discriminate.
  - cbn [In]. rewrite IH. split.
    + intros [H | [Hle H]].
      * inversion H; subst. rewrite Nat.sub_diag. auto.
      * split; [lia|]. replace (j - s) with (S (j - S s)) by lia.
        exact H.
    + intros [Hle H]. destruct (Nat.eq_dec s j) as [-> | Hne].
      * rewrite Nat.sub_diag in H. inversion H. auto.
      * right. split; [lia|].
        replace (j - s) with (S (j - S s)) in H by lia. exact H.
Qed.

Lemma In_enumerate (A : Type) (l : list A) (j : nat) (x : A) :
  In (j, x) (enumerate l) <-> nth_error l j = Some x.
Proof.
  unfold enumerate. rewrite In_enumerate_gen, Nat.sub_0_r.
  split; [intros [_ H]; exact H | intros H; split; [lia | exact H]].
Qed.

Lemma ball_In (pts : list Point) (p : Point) (r : Q) (j : nat) :
  In j (ball pts p r)
  <-> exists q, nth_error pts j = Some q /\ within p q r = true.
Proof.
  unfold ball. rewrite in_map_iff. split.
  - intros [[j' q] [Hj Hin]]. cbn [fst] in Hj. subst j'.
    apply filter_In in Hin. destruct Hin as [Hin Hw].
    apply In_enumerate in Hin. exists q. auto.
  - intros [q [Hn Hw]]. exists (j, q). split; [reflexivity|].
    apply filter_In. split; [apply In_enumerate; exact Hn | exact Hw].
Qed.

Lemma query_nth (t1 t2 : KDTree) (r : Q) (res : list (list nat))
  (k : nat) (p : Point) :
  query_ball_tree t1 t2 r = Ok res ->
  nth_error (data t1) k = Some p ->
  nth k res [] = ball (data t2) p r.
Proof.
  unfold query_ball_tree. destruct (m t1 =? m t2); intros H Hk;
    inversion H; subst res.
  apply nth_error_nth. rewrite nth_error_map, Hk. reflexivity.
Qed.

Lemma shift_idx_In (mm : list (list nat)) (s k g : nat) :
  In g (nth k (_shift_idx mm s) [])
  <-> exists j, g = j + s /\ In j (nth k mm []).
Proof.
  unfold _shift_idx.
  change (@nil nat) with (map (fun match_idx => match_idx + s) []) at 1.
  rewrite map_nth, in_map_iff. split.
  - intros [j [Hj Hin]]. exists j. auto.
  - intros [j [Hj Hin]]. exists j. auto.
Qed.

Lemma zip_app_nth (a b : list (list nat)) (k : nat) :
  length a = length b ->
  nth k (zip_app a b) [] = nth k a [] ++ nth k b [].
Proof.
  intros Hl. unfold zip_app.
  change (@nil nat) with ((fun ab : list nat * list nat => fst ab ++ snd ab)
                            ([], [])) at 1.
  rewrite map_nth, combine_nth by exact Hl. reflexivity.
Qed.

Lemma nth_const_nil (A : Type) (l : list A) (k : nat) :
  nth k (map (fun _ => @nil nat) l) [] = [].
Proof.
  revert k. induction l as [|x l IH]; intros [|k]; simpl; auto.
Qed.

(** The neighbours a point [p] of layer [i] gets from the later layers
    are the points of their concatenation within the cross-layer radius. *)
Lemma cross_from_In (ti : KDTree) (r : Q) (rest : list Layer) :
  forall off acc res,
    cross_from ti r off rest acc = Ok res ->
    length acc = length (data ti) ->
    length res = length acc /\
    forall k p, nth_error (data ti) k = Some p ->
    forall g, In g (nth k res [])
              <-> In g (nth k acc []) \/
                  exists k' q, g = off + k' /\
                               nth_error (concat rest) k' = Some q /\
                               within p q r = true.
Proof.
  induction rest as [|lj rest IH]; intros off acc res Hres Hacc.
  - cbn [cross_from] in Hres. inversion Hres; subst res. split; [reflexivity|].
    intros k p Hk g. split; [auto|].
    intros [H | (k' & q & _ & H & _)]; [exact H|].
    destruct k'; discriminate.
  - cbn [cross_from] in Hres. apply bind_ok_inv in Hres.
    destruct Hres as (mij & Hmij & Hres).
    assert (Hlen : length mij = length (data ti)).
    { destruct (tree_of lj).
      - apply (query_length _ _ _ Hmij).
      - inversion Hmij. unfold range. rewrite length_map, length_seq. lia. }
    assert (Hent : forall k p, nth_error (data ti) k = Some p ->
              forall j, In j (nth k mij [])
                        <-> exists q, nth_error lj j = Some q /\
                                      within p q r = true).
    { intros k p Hk j. destruct (tree_of lj) as [tj|] eqn:Htj.
      - rewrite (query_nth _ _ _ _ Hmij Hk), ball_In.
        rewrite (tree_of_data _ Htj). reflexivity.
      - destruct lj; [|discriminate]. inversion Hmij. subst mij.
        rewrite nth_const_nil. split; [intros [] | intros (q & H & _)].
        destruct j; discriminate. }
    assert (Hz : length acc = length (_shift_idx mij off))
      by (rewrite shift_idx_length; lia).
    apply IH in Hres; [|rewrite zip_app_length; assumption].
    destruct Hres as [Hl Hres]. rewrite zip_app_length in Hl by exact Hz.
    split; [exact Hl|]. intros k p Hk g.
    rewrite (Hres k p Hk g), (zip_app_nth _ _ k Hz), in_app_iff,
      shift_idx_In.
    cbn [concat]. split.
    + intros [[H | (j & -> & Hj)] | (k' & q & -> & Hn & Hw)].
      * left. exact H.
      * right. apply (Hent k p Hk) in Hj. destruct Hj as (q & Hq & Hw).
        exists j, q. split; [lia|]. split; [|exact Hw].
        rewrite nth_error_app1; [exact Hq|].
        apply nth_error_Some. congruence.
      * right. exists (length lj + k'), q. split; [lia|].
        split; [|exact Hw].
        rewrite nth_error_app2 by lia.
        replace (length lj + k' - length lj) with k' by lia. exact Hn.
    + intros [H | (k' & q & -> & Hn & Hw)]; [left; left; exact H|].
      destruct (Nat.lt_ge_cases k' (length lj)) as [Hlt | Hge].
      * rewrite nth_error_app1 in Hn by exact Hlt.
        left. right. exists k'. split; [lia|].
        apply (Hent k p Hk). exists q. auto.
      * rewrite nth_error_app2 in Hn by exact Hge.
        right. exists (k' - length lj), q. split; [lia | auto].
Qed.

Lemma layer_adj_In (r1 r2 : Q) (off : nat) (l : Layer) (rest : list Layer)
  (this : list (list nat)) :
  layer_adj r1 r2 off l rest = Ok this ->
  length this = length l /\
  forall k p, nth_error l k = Some p ->
  forall g, In g (nth k this [])
            <-> (exists k' q, g = off + k' /\ nth_error l k' = Some q /\
                              within p q r1 = true) \/
                (exists k' q, g = off + length l + k' /\
                              nth_error (concat rest) k' = Some q /\
                              within p q r2 = true).
Proof.
  unfold layer_adj. destruct (tree_of l) as [ti|] eqn:Hti.
  - pose proof (tree_of_data _ Hti) as Hd. intros H.
    apply bind_ok_inv in H. destruct H as (mii & Hq & H).
    pose proof (query_length _ _ _ Hq) as Hlen.
    apply cross_from_In in H; [|rewrite shift_idx_length; exact Hlen].
    destruct H as [Hl H]. rewrite shift_idx_length, Hlen, Hd in Hl.
    split; [exact Hl|]. intros k p Hk g. rewrite <- Hd in Hk.
    rewrite (H k p Hk g), shift_idx_In. rewrite (query_nth _ _ _ _ Hq Hk).
    rewrite Hd. split.
    + intros [(j & -> & Hj) | Hc]; [left | right; exact Hc].
      apply ball_In in Hj. destruct Hj as (q & Hn & Hw).
      exists j, q. split; [lia | auto].
    + intros [(k' & q & -> & Hn & Hw) | Hc]; [left | right; exact Hc].
      exists k'. split; [lia|]. apply ball_In. exists q. auto.
  - destruct l; [|discriminate]. intros H; inversion H.
    split; [reflexivity|]. intros k p Hk. destruct k; discriminate.
Qed.

(** The complete description of the adjacency list: the entry of the
    point [p] at position [k] of a layer [l] holds the global indices of
    the points of [l] within [r1] of [p] and of the points of the later
    layers within [r2] of [p]. *)
Lemma adjacency_In (r1 r2 : Q) (ls : list Layer) :
  forall off adj,
    adjacency r1 r2 off ls = Ok adj ->
    length adj = length (concat ls) /\
    forall pre l post, ls = pre ++ l :: post ->
    forall k p, nth_error l k = Some p ->
    forall g, In g (nth (length (concat pre) + k) adj [])
              <-> (exists k' q, g = off + length (concat pre) + k' /\
                                nth_error l k' = Some q /\
                                within p q r1 = true) \/
                  (exists k' q,
                      g = off + length (concat pre) + length l + k' /\
                      nth_error (concat post) k' = Some q /\
                      within p q r2 = true).
Proof.
  induction ls as [|l0 rest IH]; intros off adj Hadj.
  - inversion Hadj. split; [reflexivity|].
    intros pre l post H. destruct pre; discriminate.
  - cbn [adjacency] in Hadj. apply bind_ok_inv in Hadj.
    destruct Hadj as (this & Hthis & Hadj).
    apply bind_ok_inv in Hadj. destruct Hadj as (more & Hmore & Hadj).
    inversion Hadj; subst adj. clear Hadj.
    apply layer_adj_In in Hthis. destruct Hthis as [Hl Hthis].
    apply IH in Hmore. destruct Hmore as [Hl' Hmore].
    split; [cbn [concat]; rewrite !length_app; lia|].
    intros pre l post Hls k p Hk g.
    assert (Hklt : k < length l) by (apply nth_error_Some; congruence).
    destruct pre as [|l0' pre]; cbn [app] in Hls; inversion Hls; subst.
    + cbn [concat length Nat.add]. rewrite app_nth1 by lia.
      rewrite (Hthis k p Hk g). rewrite !Nat.add_0_r. reflexivity.
    + cbn [concat]. rewrite length_app, app_nth2 by lia.
      replace (length l0' + length (concat pre) + k - length this)
        with (length (concat pre) + k) by lia.
      rewrite (Hmore pre l post eq_refl k p Hk g).
      rewrite !Nat.add_assoc. reflexivity.
Qed.

(** Every global index belongs to one layer. *)
Lemma locate (ls : list Layer) (x : nat) :
  x < length (concat ls) ->
  exists pre l post k p,
    ls = pre ++ l :: post /\ x = length (concat pre) + k /\
    nth_error l k = Some p.
Proof.
  revert x. induction ls as [|l0 rest IH]; intros x Hx.
  - simpl in Hx. lia.
  - cbn [concat] in Hx. rewrite length_app in Hx.
    destruct (Nat.lt_ge_cases x (length l0)) as [Hlt | Hge].
    + destruct (nth_error l0 x) as [p|] eqn:Hp.
      * exists [], l0, rest, x, p. auto.
      * apply nth_error_None in Hp. lia.
    + destruct (IH (x - length l0)) as (pre & l & post & k & p & -> & Hk & Hp);
        [lia|].
      exists (l0 :: pre), l, post, k, p. cbn [concat app].
      rewrite length_app. repeat split; [lia | exact Hp].
Qed.

(** ** The union-find structure *)

Lemma update_length (A : Type) (l : list A) (i : nat) (v : A) :
  length (update l i v) = length l.
Proof.
  revert i. induction l as [|x l IH]; intros [|i]; simpl; auto.
Qed.

Lemma update_nth_same (A : Type) (l : list A) (i : nat) (v d : A) :
  i < length l -> nth i (update l i v) d = v.
Proof.
  revert i. induction l as [|x l IH]; intros [|i] H; simpl in *;
    try lia; auto. apply IH. lia.
Qed.

Lemma update_nth_other (A : Type) (l : list A) (i j : nat) (v d : A) :
  j <> i -> nth j (update l i v) d = nth j l d.
Proof.
  revert i j. induction l as [|x l IH]; intros [|i] [|j] H; simpl;
    try reflexivity; try lia. apply IH. lia.
Qed.

Lemma root_of_fun (p : list nat) (a r r' : nat) :
  root_of p a r -> root_of p a r' -> r = r'.
Proof.
  intros H. revert r'. induction H as [a Ha Hp | a r Ha Hp H IH];
    intros r' H'; inversion H'; subst; try congruence. apply IH. assumption.
Qed.

Lemma root_of_is_root (p : list nat) (a r : nat) :
  root_of p a r -> r < length p /\ nth r p r = r.
Proof. induction 1; auto. Qed.

Lemma filter_length_lt (A : Type) (f g : A -> bool) (l : list A) (y : A) :
  (forall x, f x = true -> g x = true) ->
  In y l -> g y = true -> f y = false ->
  length (filter f l) < length (filter g l).
Proof.
  intros Hfg. induction l as [|x l IH]; intros Hin Hg Hf; [destruct Hin|].
  assert (Hle : forall l', length (filter f l') <= length (filter g l')).
  { induction l' as [|z l' IH']; simpl; [lia|].
    destruct (f z) eqn:Hz; [rewrite (Hfg z Hz); simpl; lia|].
    destruct (g z); simpl; lia. }
  simpl. destruct Hin as [-> | Hin].
  - rewrite Hf, Hg. simpl. specialize (Hle l). lia.
  - specialize (IH Hin Hg Hf). destruct (f x) eqn:Hx.
    + rewrite (Hfg x Hx). simpl. lia.
    + destruct (g x); simpl; lia.
Qed.

Lemma above_parent (uf : UnionFind) (a : nat) :
  wf_uf uf -> a < length (parent uf) -> nth a (parent uf) a <> a ->
  above uf (nth a (parent uf) a) < above uf a.
Proof.
  intros [_ Hwf] Ha Hne. destruct (Hwf a Ha) as [Hlt Hrk].
  specialize (Hrk Hne). unfold above.
  apply filter_length_lt with (y := nth a (parent uf) a).
  - intros x Hx. apply Nat.ltb_lt in Hx. apply Nat.ltb_lt. lia.
  - apply in_seq. lia.
  - apply Nat.ltb_lt. exact Hrk.
  - apply Nat.ltb_ge. lia.
Qed.

Lemma above_bound (uf : UnionFind) (a : nat) :
  above uf a <= length (parent uf).
Proof.
  unfold above.
  etransitivity; [apply filter_length_le|].
  rewrite length_seq. reflexivity.
Qed.

(** Enough fuel: [find_aux] reaches the root. *)
Lemma find_aux_root_of (uf : UnionFind) :
  wf_uf uf ->
  forall fuel a, a < length (parent uf) -> above uf a <= fuel ->
                 root_of (parent uf) a (find_aux fuel (parent uf) a).
Proof.
  intros Hwf. induction fuel as [|fuel IH]; intros a Ha Hab.
  - cbn [find_aux]. apply root_here; [exact Ha|].
    destruct (Nat.eq_dec (nth a (parent uf) a) a) as [He | Hne];
      [exact He|].
    pose proof (above_parent Hwf Ha Hne). lia.
  - cbn [find_aux].
    destruct (Nat.eqb_spec (nth a (parent uf) a) a) as [He | Hne].
    + apply root_here; assumption.
    + apply root_step; [exact Ha | exact Hne |].
      apply IH; [apply (proj2 Hwf), Ha|].
      pose proof (above_parent Hwf Ha Hne). lia.
Qed.

Lemma root_root_of (uf : UnionFind) (a : nat) :
  wf_uf uf -> a < length (parent uf) -> root_of (parent uf) a (root uf a).
Proof.
  intros Hwf Ha. apply find_aux_root_of; [exact Hwf | exact Ha |].
  apply above_bound.
Qed.

Lemma root_lt (uf : UnionFind) (a : nat) :
  wf_uf uf -> a < length (parent uf) -> root uf a < length (parent uf).
Proof.
  intros Hwf Ha. apply (root_of_is_root (root_root_of Hwf Ha)).
Qed.

Lemma root_outside (uf : UnionFind) (a : nat) :
  length (parent uf) <= a -> root uf a = a.
Proof.
  intros Ha. unfold root. destruct (length (parent uf)) eqn:Hn; [reflexivity|].
  cbn [find_aux]. rewrite nth_overflow by lia. rewrite Nat.eqb_refl.
  reflexivity.
Qed.

(** Linking the root [c] below the root [t]. *)
Lemma root_of_link (p : list nat) (c t : nat) :
  c < length p -> t < length p -> nth c p c = c -> nth t p t = t -> c <> t ->
  forall x r, root_of p x r ->
              root_of (update p c t) x (if r =? c then t else r).
Proof.
  intros Hc Ht Hcr Htr Hct x r H.
  assert (Htroot : root_of (update p c t) t t).
  { apply root_here; [rewrite update_length; exact Ht|].
    rewrite update_nth_other by congruence. exact Htr. }
  induction H as [a Ha Hp | a r Ha Hp H IH].
  - destruct (Nat.eqb_spec a c) as [-> | Hne].
    + apply root_step.
      * rewrite update_length; exact Hc.
      * rewrite update_nth_same by exact Hc. congruence.
      * rewrite update_nth_same by exact Hc. exact Htroot.
    + apply root_here; [rewrite update_length; exact Ha|].
      rewrite update_nth_other by exact Hne. exact Hp.
  - assert (Hac : a <> c) by congruence.
    apply root_step.
    + rewrite update_length; exact Ha.
    + rewrite update_nth_other by exact Hac. exact Hp.
    + rewrite update_nth_other by exact Hac. exact IH.
Qed.

Lemma new_wf (n : nat) : wf_uf (UnionFind_new n).
Proof.
  split; [cbn; rewrite repeat_length, length_seq; reflexivity|].
  intros a Ha. cbn [UnionFind_new parent rank] in *.
  rewrite length_seq in Ha. rewrite seq_nth by exact Ha.
  rewrite length_seq. split; [lia | intros H; lia].
Qed.

Lemma new_root (n a : nat) : root (UnionFind_new n) a = a.
Proof.
  unfold root. cbn [UnionFind_new parent]. rewrite length_seq.
  destruct n; [reflexivity|]. cbn [find_aux].
  destruct (Nat.lt_ge_cases a (S n)) as [H | H].
  - rewrite seq_nth by exact H. cbn [Nat.add]. rewrite Nat.eqb_refl.
    reflexivity.
  - rewrite nth_overflow by (rewrite length_seq; exact H).
    rewrite Nat.eqb_refl. reflexivity.
Qed.

Lemma link_spec (uf : UnionFind) (c t : nat) (rk : list nat) :
  wf_uf uf ->
  c < length (parent uf) -> t < length (parent uf) ->
  nth c (parent uf) c = c -> nth t (parent uf) t = t -> c <> t ->
  length rk = length (parent uf) ->
  nth c rk 0 < nth t rk 0 ->
  (forall a, a < length (parent uf) -> nth a (parent uf) a <> a ->
             nth a rk 0 < nth (nth a (parent uf) a) rk 0) ->
  let uf' := {| parent := update (parent uf) c t; rank := rk |} in
  wf_uf uf' /\
  length (parent uf') = length (parent uf) /\
  forall x, x < length (parent uf) ->
            root uf' x = if root uf x =? c then t else root uf x.
Proof.
  intros Hwf Hc Ht Hcr Htr Hct Hlen Hlink Hold uf'.
  assert (Hwf' : wf_uf uf').
  { split; cbn [uf' parent rank]; rewrite update_length; [exact Hlen|].
    intros a Ha. destruct (Nat.eq_dec a c) as [-> | Hne].
    - rewrite update_nth_same by exact Hc. split; [exact Ht|].
      intros _. exact Hlink.
    - rewrite update_nth_other by exact Hne. split.
      + apply (proj2 Hwf), Ha.
      + apply Hold, Ha. }
  split; [exact Hwf'|]. split; [apply update_length|].
  intros x Hx.
  pose proof (root_of_link Hc Ht Hcr Htr Hct (root_root_of Hwf Hx)) as H1.
  assert (Hx' : x < length (parent uf'))
    by (cbn [uf' parent]; rewrite update_length; exact Hx).
  pose proof (root_root_of Hwf' Hx') as H2.
  apply (root_of_fun H2 H1).
Qed.

(** [union] succeeds inside the universe, keeps the invariant and merges
    exactly the two sets. *)
Lemma union_spec (uf : UnionFind) (a b : nat) :
  wf_uf uf -> a < length (parent uf) -> b < length (parent uf) ->
  exists uf',
    union uf a b = Ok uf' /\ wf_uf uf' /\
    length (parent uf') = length (parent uf) /\
    forall x y, x < length (parent uf) -> y < length (parent uf) ->
      (root uf' x = root uf' y
       <-> root uf x = root uf y \/
           (root uf x = root uf a /\ root uf y = root uf b) \/
           (root uf x = root uf b /\ root uf y = root uf a)).
Proof.
  intros Hwf Ha Hb. unfold union, find.
  destruct (Nat.ltb_spec a (length (parent uf))) as [_|]; [|lia].
  destruct (Nat.ltb_spec b (length (parent uf))) as [_|]; [|lia].
  cbn [bind].
  destruct (root_of_is_root (root_root_of Hwf Ha)) as [Hra Hrar].
  destruct (root_of_is_root (root_root_of Hwf Hb)) as [Hrb Hrbr].
  set (ra := root uf a) in *. set (rb := root uf b) in *.
  assert (Hfinish : forall c t rk,
            (c = ra /\ t = rb) \/ (c = rb /\ t = ra) -> c <> t ->
            length rk = length (parent uf) ->
            nth c rk 0 < nth t rk 0 ->
            (forall z, z < length (parent uf) -> nth z (parent uf) z <> z ->
                       nth z rk 0 < nth (nth z (parent uf) z) rk 0) ->
            exists uf',
              Ok {| parent := update (parent uf) c t; rank := rk |} = Ok uf' /\
              wf_uf uf' /\
              length (parent uf') = length (parent uf) /\
              forall x y, x < length (parent uf) -> y < length (parent uf) ->
                (root uf' x = root uf' y
                 <-> root uf x = root uf y \/
                     (root uf x = ra /\ root uf y = rb) \/
                     (root uf x = rb /\ root uf y = ra))).
  { intros c t rk Hcase Hct Hlen Hlink Hold.
    assert (Hc : c < length (parent uf) /\ nth c (parent uf) c = c)
      by (destruct Hcase as [[-> _] | [-> _]]; auto).
    assert (Ht : t < length (parent uf) /\ nth t (parent uf) t = t)
      by (destruct Hcase as [[_ ->] | [_ ->]]; auto).
    destruct Hc as [Hc Hcr]. destruct Ht as [Ht Htr].
    destruct (@link_spec uf c t rk Hwf Hc Ht Hcr Htr Hct Hlen Hlink Hold)
      as (Hwf' & Hlen' & Hroot).
    eexists. split; [reflexivity|]. split; [exact Hwf'|].
    split; [exact Hlen'|]. intros x y Hx Hy.
    rewrite (Hroot x Hx), (Hroot y Hy).
    destruct (Nat.eqb_spec (root uf x) c) as [Hxc | Hxc];
      destruct (Nat.eqb_spec (root uf y) c) as [Hyc | Hyc];
      destruct Hcase as [[-> ->] | [-> ->]];
      split; intros H; try (left; congruence);
      try (destruct H as [H | [[H1 H2] | [H1 H2]]]; congruence);
      try (right; left; split; congruence);
      try (right; right; split; congruence). }
  destruct (Nat.eqb_spec ra rb) as [Heq | Hne].
  - exists uf. split; [reflexivity|]. split; [exact Hwf|].
    split; [reflexivity|]. intros x y Hx Hy. split; [auto|].
    intros [H | [[H1 H2] | [H1 H2]]]; congruence.
  - pose proof Hwf as [Hrl Hpar].
    assert (Hold : forall z, z < length (parent uf) ->
              nth z (parent uf) z <> z ->
              nth z (rank uf) 0 < nth (nth z (parent uf) z) (rank uf) 0)
      by (intros z Hz; apply (Hpar z Hz)).
    destruct (Nat.ltb_spec (nth ra (rank uf) 0) (nth rb (rank uf) 0))
      as [Hlt | Hge].
    + apply Hfinish; auto.
    + destruct (Nat.ltb_spec (nth rb (rank uf) 0) (nth ra (rank uf) 0))
        as [Hlt | Hge'].
      * apply Hfinish; auto.
      * apply Hfinish; auto.
        -- rewrite update_length. exact Hrl.
        -- rewrite update_nth_other by auto.
           rewrite update_nth_same by lia. lia.
        -- intros z Hz Hnr.
           assert (Hzra : z <> ra) by congruence.
           rewrite update_nth_other by exact Hzra.
           specialize (Hold z Hz Hnr).
           destruct (Nat.eq_dec (nth z (parent uf) z) ra) as [He | Hn'].
           ++ rewrite He in *. rewrite update_nth_same by lia. lia.
           ++ rewrite update_nth_other by exact Hn'. exact Hold.
Qed.

(** ** A sequence of unions computes connectivity *)

Lemma unions_spec (n : nat) (E : list (nat * nat)) :
  (forall a b, In (a, b) E -> a < n /\ b < n) ->
  exists uf,
    foldM (fun uf e => union uf (fst e) (snd e)) E (UnionFind_new n) = Ok uf /\
    wf_uf uf /\ length (parent uf) = n /\
    (forall x y, clos_refl_sym_trans nat (fun a b => In (a, b) E) x y ->
                 root uf x = root uf y) /\
    (forall x y, x < n -> y < n -> root uf x = root uf y ->
                 clos_refl_sym_trans nat (fun a b => In (a, b) E) x y).
Proof.
  induction E as [|[a b] E IH] using rev_ind; intros Hin.
  - exists (UnionFind_new n). split; [reflexivity|].
    split; [apply new_wf|].
    split; [cbn; apply length_seq|]. split.
    + intros x y H.
      induction H as [x y [] | x | x y _ IHs | x y z _ IH1 _ IH2];
        congruence.
    + intros x y _ _ H. rewrite !new_root in H. subst y. apply rst_refl.
  - assert (HinE : forall a' b', In (a', b') E -> a' < n /\ b' < n)
      by (intros a' b' H; apply Hin, in_or_app; left; exact H).
    destruct (IH HinE) as (uf & Hfold & Hwf & Hlen & Hsound & Hcompl).
    assert (Hab' : a < n /\ b < n)
      by (apply Hin, in_or_app; right; left; reflexivity).
    destruct Hab' as [Ha Hb].
    rewrite <- Hlen in Ha, Hb.
    destruct (@union_spec uf a b Hwf Ha Hb) as (uf' & Hun & Hwf' & Hlen' & Hroot).
    exists uf'. rewrite foldM_app, Hfold. cbn [bind foldM fst snd].
    rewrite Hun. cbn [bind]. split; [reflexivity|].
    split; [exact Hwf'|]. split; [congruence|]. split.
    + intros x y H.
      induction H as [x y Hxy | x | x y _ IHs | x y z _ IH1 _ IH2];
        try congruence.
      apply in_app_or in Hxy. destruct Hxy as [Hxy | [Hxy | []]].
      * destruct (HinE x y Hxy) as [Hx Hy].
        apply Hroot; try lia. left. apply Hsound. apply rst_step. exact Hxy.
      * inversion Hxy; subst x y. apply Hroot; auto.
    + intros x y Hx Hy H. rewrite <- Hlen in Hx, Hy.
      assert (Hmono : forall u v,
                clos_refl_sym_trans nat (fun a b => In (a, b) E) u v ->
                clos_refl_sym_trans nat
                  (fun a0 b0 => In (a0, b0) (E ++ [(a, b)])) u v).
      { intros u v Huv.
        induction Huv as [u v Huv | u | u v _ IHs | u v w _ IH1 _ IH2].
        - apply rst_step, in_or_app. left. exact Huv.
        - apply rst_refl.
        - apply rst_sym. exact IHs.
        - apply rst_trans with v; assumption. }
      assert (Hab : clos_refl_sym_trans nat
                      (fun a0 b0 => In (a0, b0) (E ++ [(a, b)])) a b)
        by (apply rst_step, in_or_app; right; left; reflexivity).
      assert (Hc : forall u v, u < length (parent uf) ->
                v < length (parent uf) -> root uf u = root uf v ->
                clos_refl_sym_trans nat
                  (fun a0 b0 => In (a0, b0) (E ++ [(a, b)])) u v).
      { intros u v Hu Hv Huv. apply Hmono, Hcompl; lia. }
      apply (Hroot x y Hx Hy) in H.
      destruct H as [H | [[H1 H2] | [H1 H2]]].
      * apply Hc; assumption.
      * apply rst_trans with a; [apply Hc; assumption|].
        apply rst_trans with b; [exact Hab|]. apply Hc; auto.
      * apply rst_trans with b; [apply Hc; assumption|].
        apply rst_trans with a; [apply rst_sym; exact Hab|].
        apply Hc; auto.
Qed.

Lemma foldM_edges (adj : list (nat * list nat)) (uf : UnionFind) :
  foldM (fun uf ic => foldM (fun uf j => union uf (fst ic) j) (snd ic) uf)
        adj uf
  = foldM (fun uf e => union uf (fst e) (snd e))
          (flat_map (fun ic => map (pair (fst ic)) (snd ic)) adj) uf.
Proof.
  revert uf. induction adj as [|[i c] adj IH]; intros uf; [reflexivity|].
  cbn [foldM flat_map fst snd]. rewrite foldM_app.
  assert (Hin : forall u,
            foldM (fun uf j => union uf i j) c u
            = foldM (fun uf e => union uf (fst e) (snd e)) (map (pair i) c) u).
  { induction c as [|j c IHc]; intros u; [reflexivity|].
    cbn [foldM map fst snd]. destruct (union u i j); cbn [bind];
      [apply IHc | reflexivity]. }
  rewrite Hin.
  destruct (foldM (fun uf0 e => union uf0 (fst e) (snd e)) (map (pair i) c) uf);
    cbn [bind]; [apply IH | reflexivity].
Qed.

Lemma In_edges (adj : list (list nat)) (a b : nat) :
  In (a, b) (edges adj) <-> edge adj a b.
Proof.
  unfold edges, edge. rewrite in_flat_map. split.
  - intros [[i c] [Hic Hab]]. cbn [fst snd] in Hab.
    apply In_enumerate in Hic. apply in_map_iff in Hab.
    destruct Hab as (j & Hj & Hin). inversion Hj; subst i j.
    split; [apply nth_error_Some; congruence|].
    rewrite (nth_error_nth _ _ _ Hic). exact Hin.
  - intros [Ha Hb]. exists (a, nth a adj []). split.
    + apply In_enumerate. apply nth_error_nth'. exact Ha.
    + cbn [fst snd]. apply in_map. exact Hb.
Qed.

Lemma connected_edges (adj : list (list nat)) (x y : nat) :
  connected adj x y
  <-> clos_refl_sym_trans nat (fun a b => In (a, b) (edges adj)) x y.
Proof.
  unfold connected. split; intros H;
    induction H as [x y Hxy | x | x y _ IH | x y z _ IH1 _ IH2];
    try (apply rst_step, In_edges; exact Hxy);
    try apply rst_refl; try (apply rst_sym; exact IH);
    try (apply rst_trans with y; assumption).
Qed.

(** ** [list_unions] *)

Lemma list_unions_In (uf : UnionFind) (r : nat) (ms : list nat) :
  In (r, ms) (list_unions uf)
  <-> In r (map (root uf) (seq 0 (length (parent uf)))) /\
      ms = filter (fun i => root uf i =? r) (seq 0 (length (parent uf))).
Proof.
  unfold list_unions. rewrite in_map_iff. split.
  - intros (r' & Heq & Hin). inversion Heq; subst.
    apply nodup_In in Hin. auto.
  - intros [Hin ->]. exists r. split; [reflexivity|].
    apply nodup_In. exact Hin.
Qed.

Lemma list_unions_keys (uf : UnionFind) : NoDup (map fst (list_unions uf)).
Proof.
  unfold list_unions. rewrite map_map. cbn [fst]. rewrite map_id.
  apply NoDup_nodup.
Qed.

Lemma list_unions_member (uf : UnionFind) (r : nat) (ms : list nat) (a : nat) :
  In (r, ms) (list_unions uf) ->
  (In a ms <-> a < length (parent uf) /\ root uf a = r).
Proof.
  intros H. apply list_unions_In in H. destruct H as [_ ->].
  rewrite filter_In, in_seq, Nat.eqb_eq. split; intros [H1 H2];
    split; auto; lia.
Qed.

Lemma list_unions_entry (uf : UnionFind) (a : nat) :
  a < length (parent uf) ->
  In (root uf a,
      filter (fun i => root uf i =? root uf a) (seq 0 (length (parent uf))))
     (list_unions uf).
Proof.
  intros Ha. apply list_unions_In. split; [|reflexivity].
  apply in_map, in_seq. lia.
Qed.

Lemma same_cluster_list_unions (uf : UnionFind) (a b : nat) :
  same_cluster (list_unions uf) a b
  <-> a < length (parent uf) /\ b < length (parent uf) /\
      root uf a = root uf b.
Proof.
  split.
  - intros (r & ms & Hin & Ha & Hb).
    apply (@list_unions_member uf r ms a Hin) in Ha.
    apply (@list_unions_member uf r ms b Hin) in Hb.
    destruct Ha as [Ha Hra], Hb as [Hb Hrb]. repeat split; congruence.
  - intros (Ha & Hb & Hab).
    pose proof (@list_unions_entry uf a Ha) as Hin.
    eexists _, _. split; [exact Hin|].
    split; apply (@list_unions_member uf _ _ _ Hin); auto.
Qed.

(** ** [compress_match] *)

Lemma compress_match_spec (self : MultiLayerCluster) :
  closed_adj (match_all_layers self) ->
  exists uf,
    compress_match self = Ok (self, list_unions uf) /\
    length (parent uf) = length (match_all_layers self) /\
    (forall x y, connected (match_all_layers self) x y ->
                 root uf x = root uf y) /\
    (forall x y, x < length (match_all_layers self) ->
                 y < length (match_all_layers self) ->
                 root uf x = root uf y ->
                 connected (match_all_layers self) x y).
Proof.
  intros Hclosed. set (adj := match_all_layers self) in *.
  assert (Hin : forall a b, In (a, b) (edges adj) ->
                            a < length adj /\ b < length adj).
  { intros a b H. apply In_edges in H. destruct H as [Ha Hb].
    split; [exact Ha | apply (Hclosed a b Hb)]. }
  destruct (@unions_spec (length adj) (edges adj) Hin) as (uf & Hfold & Hwf & Hlen & Hsound & Hcompl).
  exists uf. unfold compress_match. fold adj.
  rewrite foldM_edges. fold (edges adj). rewrite Hfold. cbn [bind].
  split; [reflexivity|]. split; [exact Hlen|]. split.
  - intros x y H. apply Hsound, connected_edges, H.
  - intros x y Hx Hy H. apply connected_edges, Hcompl; assumption.
Qed.

(** Two indices share a cluster exactly when the adjacency list connects
    them. *)
Lemma compress_match_clusters (self : MultiLayerCluster) :
  closed_adj (match_all_layers self) ->
  exists clusters,
    compress_match self = Ok (self, clusters) /\
    NoDup (map fst clusters) /\
    (forall a b, same_cluster clusters a b
                 <-> a < length (match_all_layers self) /\
                     b < length (match_all_layers self) /\
                     connected (match_all_layers self) a b) /\
    (forall g, g < length (match_all_layers self) ->
               exists r members,
                 In (r, members) clusters /\ In g members /\
                 forall r' members',
                   In (r', members') clusters -> In g members' ->
                   r' = r /\ members' = members) /\
    (forall r members g,
        In (r, members) clusters -> In g members ->
        g < length (match_all_layers self)) /\
    (forall r members,
        In (r, members) clusters -> NoDup members /\ members <> []) /\
    (match_all_layers self = [] -> clusters = []).
Proof.
  intros Hclosed.
  destruct (@compress_match_spec self Hclosed) as (uf & Hc & Hlen & Hs & Hcompl).
  exists (list_unions uf). split; [exact Hc|].
  split; [apply list_unions_keys|]. split; [|split; [|split; [|split]]].
  - intros a b. rewrite same_cluster_list_unions, Hlen. split.
    + intros (Ha & Hb & H). auto.
    + intros (Ha & Hb & H). auto.
  - intros g Hg. rewrite <- Hlen in Hg.
    pose proof (@list_unions_entry uf g Hg) as Hin.
    eexists _, _. split; [exact Hin|]. split.
    + apply (@list_unions_member uf _ _ _ Hin). auto.
    + intros r' ms' Hin' Hg'.
      apply (@list_unions_member uf _ _ _ Hin') in Hg'.
      destruct Hg' as [_ <-].
      split; [reflexivity|].
      apply list_unions_In in Hin'. apply Hin'.
  - intros r ms g Hin Hg. apply (@list_unions_member uf _ _ _ Hin) in Hg.
    rewrite <- Hlen. apply Hg.
  - intros r ms Hin. apply list_unions_In in Hin. destruct Hin as [Hr ->].
    split; [apply NoDup_filter, seq_NoDup|].
    apply in_map_iff in Hr. destruct Hr as (i & Hi & Hin).
    intros Hnil.
    assert (Hf : In i (filter (fun i0 => root uf i0 =? r)
                         (seq 0 (length (parent uf)))))
      by (apply filter_In; split; [exact Hin | apply Nat.eqb_eq, Hi]).
    rewrite Hnil in Hf. destruct Hf.
  - intros Hnil. rewrite Hnil in Hlen. unfold list_unions.
    rewrite Hlen. reflexivity.
Qed.

(** ** Distances *)

Lemma sq_nonneg (d : Q) : (0 <= d * d)%Q.
Proof.
  destruct (Qlt_le_dec d 0) as [H | H].
  - assert (E : (d * d == (- d) * (- d))%Q) by ring. rewrite E.
    apply Qmult_le_0_compat; lra.
  - apply Qmult_le_0_compat; assumption.
Qed.

Lemma sqdist_nonneg (p q : Point) : (0 <= sqdist p q)%Q.
Proof.
  unfold sqdist. induction (combine p q) as [|[x y] l IH]; cbn [fold_right].
  - apply Qle_refl.
  - cbn [fst snd]. pose proof (sq_nonneg (x - y)). lra.
Qed.

Lemma sqdist_self (p : Point) : (sqdist p p == 0)%Q.
Proof.
  unfold sqdist. induction p as [|x p IH]; cbn [combine fold_right fst snd].
  - reflexivity.
  - rewrite IH. ring.
Qed.

Lemma within_self (p : Point) (r : Q) : (0 <= r)%Q -> within p p r = true.
Proof.
  intros _. unfold within. apply Qle_bool_iff.
  rewrite sqdist_self. apply sq_nonneg.
Qed.

Lemma within_mono (p q : Point) (r r' : Q) :
  (0 <= r)%Q -> (r <= r')%Q -> within p q r = true -> within p q r' = true.
Proof.
  unfold within. intros H0 Hle Hd. apply Qle_bool_iff in Hd.
  apply Qle_bool_iff.
  apply Qle_trans with (r * r)%Q; [exact Hd|].
  apply Qmult_le_compat_nonneg; split; assumption.
Qed.

Lemma sqdist_zero (p q : Point) :
  length p = length q -> (sqdist p q <= 0)%Q -> coincident p q.
Proof.
  revert q. induction p as [|x p IH]; intros [|y q] Hl H;
    try discriminate; [constructor|].
  unfold sqdist in H. cbn [combine fold_right fst snd] in H.
  fold (sqdist p q) in H.
  pose proof (sqdist_nonneg p q) as Hs.
  pose proof (sq_nonneg (x - y)) as Hsq.
  assert (Hz : ((x - y) * (x - y) == 0)%Q) by lra.
  constructor.
  - apply Qmult_integral in Hz. destruct Hz; lra.
  - apply IH; [simpl in Hl; lia | lra].
Qed.

Lemma within_zero (p q : Point) :
  length p = length q -> within p q 0 = true -> coincident p q.
Proof.
  unfold within. intros Hl H. apply Qle_bool_iff in H.
  apply sqdist_zero; [exact Hl | lra].
Qed.

(** ** One call on a fresh instance *)

Lemma fresh_cluster (ls : list Layer) (st st1 : MultiLayerCluster)
  (r1 r2 : Q) (adj : list (list nat)) :
  __init__ ls = Ok st ->
  cluster_all_layers st r1 r2 = Ok (st1, adj) ->
  st = built ls /\ each_uniform ls /\
  adjacency r1 r2 0 ls = Ok adj /\
  st1 = set_match_all_layers st adj /\ match_all_layers st1 = adj.
Proof.
  intros Hinit Hcl. apply init_ok_built in Hinit.
  destruct Hinit as [-> Hu]. split; [reflexivity|].
  split; [apply each_uniform_iff; exact Hu|].
  rewrite (cluster_spec r1 r2 (built_instance ls)) in Hcl.
  apply bind_ok_inv in Hcl. destruct Hcl as (adj' & Hadj & Hcl).
  cbn [built match_all_layers app] in Hcl. inversion Hcl; subst.
  auto.
Qed.

Lemma concat_middle_length (pre : list Layer) (l : Layer) (post : list Layer) :
  length (concat (pre ++ l :: post))
  = length (concat pre) + length l + length (concat post).
Proof.
  rewrite concat_app. cbn [concat]. rewrite !length_app. lia.
Qed.

Lemma adjacency_closed (r1 r2 : Q) (ls : list Layer) (adj : list (list nat)) :
  adjacency r1 r2 0 ls = Ok adj -> closed_adj adj.
Proof.
  intros Hadj a b Hb. apply adjacency_In in Hadj. destruct Hadj as [Hlen Hadj].
  destruct (Nat.lt_ge_cases a (length adj)) as [Ha | Ha];
    [|rewrite nth_overflow in Hb by exact Ha; destruct Hb].
  rewrite Hlen in Ha.
  destruct (locate ls Ha) as (pre & l & post & k & p & Hls & -> & Hk).
  apply (Hadj pre l post Hls k p Hk b) in Hb.
  rewrite Hlen, Hls, concat_middle_length.
  destruct Hb as [(k' & q & -> & Hn & _) | (k' & q & -> & Hn & _)].
  - assert (Hlt : k' < length l) by (apply nth_error_Some; congruence).
    lia.
  - assert (Hlt : k' < length (concat post))
      by (apply nth_error_Some; congruence).
    lia.
Qed.

(** ** Where a neighbour list comes from: same layer first, later layers
       after *)

Lemma cross_query_bound (ti : KDTree) (lj : Layer) (r : Q)
  (mij : list (list nat)) :
  match tree_of lj with
  | Some tj => query_ball_tree ti tj r
  | None => Ok (map (fun _ => []) (range 0 (length (data ti))))
  end = Ok mij ->
  length mij = length (data ti) /\
  forall k j, In j (nth k mij []) -> j < length lj.
Proof.
  intros H. destruct (tree_of lj) as [tj|] eqn:Htj.
  - split; [apply (query_length _ _ _ H)|]. intros k j Hj.
    destruct (nth_error (data ti) k) as [p|] eqn:Hk.
    + rewrite (query_nth _ _ _ _ H Hk) in Hj. apply ball_In in Hj.
      destruct Hj as (q & Hq & _). rewrite (tree_of_data _ Htj) in Hq.
      apply nth_error_Some. congruence.
    + apply nth_error_None in Hk.
      rewrite nth_overflow in Hj; [destruct Hj|].
      rewrite (query_length _ _ _ H). exact Hk.
  - inversion H. split.
    + unfold range. rewrite length_map, length_seq. lia.
    + intros k j Hj. rewrite nth_const_nil in Hj. destruct Hj.
Qed.

Lemma cross_from_split (ti : KDTree) (r : Q) (rest : list Layer) :
  forall off acc res,
    cross_from ti r off rest acc = Ok res ->
    length acc = length (data ti) ->
    forall k, exists extra,
      nth k res [] = nth k acc [] ++ extra /\
      forall g, In g extra -> off <= g < off + length (concat rest).
Proof.
  induction rest as [|lj rest IH]; intros off acc res Hres Hacc k.
  - inversion Hres. exists []. rewrite app_nil_r.
    split; [reflexivity | intros g []].
  - cbn [cross_from] in Hres. apply bind_ok_inv in Hres.
    destruct Hres as (mij & Hmij & Hres).
    apply cross_query_bound in Hmij. destruct Hmij as [Hlen Hb].
    assert (Hz : length acc = length (_shift_idx mij off))
      by (rewrite shift_idx_length; lia).
    destruct (IH _ _ _ Hres) with (k := k) as (extra & Heq & Hex).
    { rewrite zip_app_length; assumption. }
    exists (nth k (_shift_idx mij off) [] ++ extra).
    rewrite Heq, (zip_app_nth _ _ k Hz), app_assoc.
    split; [reflexivity|]. intros g Hg. cbn [concat].
    rewrite length_app. apply in_app_or in Hg. destruct Hg as [Hg | Hg].
    + apply shift_idx_In in Hg. destruct Hg as (j & -> & Hj).
      specialize (Hb k j Hj). lia.
    + specialize (Hex g Hg). lia.
Qed.

Lemma layer_adj_split (r1 r2 : Q) (off : nat) (l : Layer) (rest : list Layer)
  (this : list (list nat)) :
  layer_adj r1 r2 off l rest = Ok this ->
  forall k, exists same cross,
    nth k this [] = same ++ cross /\
    (forall g, In g same -> off <= g < off + length l) /\
    (forall g, In g cross ->
               off + length l <= g < off + length l + length (concat rest)).
Proof.
  unfold layer_adj. destruct (tree_of l) as [ti|] eqn:Hti.
  - pose proof (tree_of_data _ Hti) as Hd. intros H k.
    apply bind_ok_inv in H. destruct H as (mii & Hq & H).
    pose proof (query_length _ _ _ Hq) as Hlen.
    destruct (cross_from_split _ _ _ _ _ H) with (k := k)
      as (extra & Heq & Hex).
    { rewrite shift_idx_length. exact Hlen. }
    exists (nth k (_shift_idx mii off) []), extra.
    split; [exact Heq|]. split; [|exact Hex].
    intros g Hg. apply shift_idx_In in Hg. destruct Hg as (j & -> & Hj).
    destruct (nth_error (data ti) k) as [p|] eqn:Hk.
    + rewrite (query_nth _ _ _ _ Hq Hk) in Hj. apply ball_In in Hj.
      destruct Hj as (q & Hn & _). rewrite Hd in Hn.
      assert (j < length l) by (apply nth_error_Some; congruence). lia.
    + apply nth_error_None in Hk.
      rewrite nth_overflow in Hj by lia. destruct Hj.
  - intros H k. inversion H. exists [], [].
    split; [destruct k; reflexivity|]. split; intros g [].
Qed.

Lemma adjacency_split (r1 r2 : Q) (ls : list Layer) :
  forall off adj,
    adjacency r1 r2 off ls = Ok adj ->
    forall pre l post, ls = pre ++ l :: post ->
    forall k, k < length l ->
    exists same cross,
      nth (length (concat pre) + k) adj [] = same ++ cross /\
      (forall g, In g same ->
         off + length (concat pre) <= g
         < off + length (concat pre) + length l) /\
      (forall g, In g cross ->
         off + length (concat pre) + length l <= g
         < off + length (concat pre) + length l + length (concat post)).
Proof.
  induction ls as [|l0 rest IH]; intros off adj Hadj pre l post Hls k Hk.
  - destruct pre; discriminate.
  - cbn [adjacency] in Hadj. apply bind_ok_inv in Hadj.
    destruct Hadj as (this & Hthis & Hadj).
    apply bind_ok_inv in Hadj. destruct Hadj as (more & Hmore & Hadj).
    inversion Hadj; subst adj. clear Hadj.
    pose proof (proj1 (layer_adj_In _ _ _ _ _ Hthis)) as Hl.
    destruct pre as [|l0' pre]; cbn [app] in Hls; inversion Hls; subst.
    + cbn [concat length Nat.add]. rewrite app_nth1 by lia.
      destruct (layer_adj_split _ _ _ _ _ Hthis k)
        as (same & cross & Heq & Hs & Hc).
      exists same, cross. rewrite !Nat.add_0_r. auto.
    + cbn [concat]. rewrite length_app, app_nth2 by lia.
      replace (length l0' + length (concat pre) + k - length this)
        with (length (concat pre) + k) by lia.
      destruct (IH _ _ Hmore pre l post eq_refl k Hk)
        as (same & cross & Heq & Hs & Hc).
      exists same, cross. split; [exact Heq|].
      split; intros g Hg; [specialize (Hs g Hg) | specialize (Hc g Hg)]; lia.
Qed.

Lemma nth_offsets (pre : list Layer) (l : Layer) (post : list Layer) :
  nth (length pre) (offsets 0 (pre ++ l :: post)) 0 = length (concat pre).
Proof.
  apply nth_error_nth. apply get_ok_iff. apply get_offsets.
Qed.

(** ** An empty layer changes nothing *)

Lemma zip_app_empty (A : Type) (acc : list (list nat)) (l : list A) (s : nat) :
  length l = length acc ->
  zip_app acc (_shift_idx (map (fun _ => []) l) s) = acc.
Proof.
  unfold zip_app, _shift_idx. rewrite map_map. cbn [map].
  revert l. induction acc as [|x acc IH]; intros [|y l] H;
    try discriminate; [reflexivity|].
  cbn [map combine fst snd]. rewrite app_nil_r, IH; [reflexivity|].
  simpl in H. lia.
Qed.

Lemma cross_from_skip_empty (ti : KDTree) (r : Q) (rest1 rest2 : list Layer) :
  forall off acc,
    length acc = length (data ti) ->
    cross_from ti r off (rest1 ++ [] :: rest2) acc
    = cross_from ti r off (rest1 ++ rest2) acc.
Proof.
  induction rest1 as [|lj rest1 IH]; intros off acc Hacc.
  - cbn [app cross_from tree_of bind length].
    rewrite zip_app_empty, Nat.add_0_r; [reflexivity|].
    unfold range. rewrite length_seq. lia.
  - cbn [app cross_from].
    set (c := match tree_of lj with
              | Some tj => query_ball_tree ti tj r
              | None => Ok (map (fun _ => []) (range 0 (length (data ti))))
              end).
    destruct c as [mij|e] eqn:Hc; cbn [bind]; [|reflexivity].
    apply cross_query_bound in Hc. destruct Hc as [Hlen _].
    apply IH. rewrite zip_app_length; rewrite ?shift_idx_length; lia.
Qed.

Lemma bind_ok_eta (A : Type) (c : result A) : (a <- c ;; Ok a) = c.
Proof. destruct c; reflexivity. Qed.

Lemma adjacency_skip_empty (r1 r2 : Q) (pre post : list Layer) :
  forall off,
    adjacency r1 r2 off (pre ++ [] :: post)
    = adjacency r1 r2 off (pre ++ post).
Proof.
  induction pre as [|l pre IH]; intros off.
  - cbn [app adjacency layer_adj tree_of bind length].
    rewrite Nat.add_0_r. cbn [app]. apply bind_ok_eta.
  - cbn [app adjacency]. rewrite IH.
    replace (layer_adj r1 r2 off l (pre ++ [] :: post))
      with (layer_adj r1 r2 off l (pre ++ post)); [reflexivity|].
    unfold layer_adj. destruct (tree_of l) as [ti|]; [|reflexivity].
    destruct (query_ball_tree ti ti r1) as [mii|e] eqn:Hq; cbn [bind];
      [|reflexivity].
    symmetry. apply cross_from_skip_empty.
    rewrite shift_idx_length. apply (query_length _ _ _ Hq).
Qed.

(** ** A point without neighbours *)

Lemma connected_isolated (adj : list (list nat)) (g : nat) :
  (forall x, In x (nth g adj []) -> x = g) ->
  (forall h, In g (nth h adj []) -> h = g) ->
  forall a b, connected adj a b -> (a = g <-> b = g).
Proof.
  intros Hout Hin a b H.
  induction H as [a b [_ Hab] | a | a b _ IH | a b c _ IH1 _ IH2].
  - split; intros ->; [apply Hout | apply Hin]; exact Hab.
  - reflexivity.
  - symmetry. exact IH.
  - rewrite IH1. exact IH2.
Qed.

Lemma NoDup_all_equal (g : nat) (ms : list nat) :
  NoDup ms -> In g ms -> (forall x, In x ms -> x = g) -> ms = [g].
Proof.
  intros Hnd Hg Hall. destruct ms as [|x ms]; [destruct Hg|].
  assert (x = g) by (apply Hall; left; reflexivity). subst x.
  destruct ms as [|y ms]; [reflexivity|].
  assert (y = g) by (apply Hall; right; left; reflexivity). subst y.
  inversion Hnd as [|? ? Hn _]. exfalso. apply Hn. left. reflexivity.
Qed.

(** ** Layers and their offsets *)

Lemma split_at (ls : list Layer) (i : nat) :
  i < length ls ->
  ls = firstn i ls ++ nth i ls [] :: skipn (S i) ls /\
  length (firstn i ls) = i.
Proof.
  intros Hi. split.
  - symmetry. apply firstn_skipn_middle. apply nth_error_nth'. exact Hi.
  - apply firstn_length_le. lia.
Qed.

Lemma split_layers (ls : list Layer) (i : nat) :
  i < length ls ->
  exists pre l post, ls = pre ++ l :: post /\ length pre = i.
Proof.
  intros Hi. destruct (split_at ls Hi) as [Hs Hl]. eauto.
Qed.

Lemma layer_at (pre : list Layer) (l : Layer) (post : list Layer) :
  nth (length pre) (pre ++ l :: post) [] = l.
Proof.
  rewrite app_nth2, Nat.sub_diag by lia. reflexivity.
Qed.

Lemma offsets_nth (ls : list Layer) (i : nat) :
  i < length ls ->
  nth i (offsets 0 ls) 0 = length (concat (firstn i ls)).
Proof.
  intros Hi. destruct (split_at ls Hi) as [Hs Hl].
  rewrite Hs at 1. rewrite <- Hl at 1. apply nth_offsets.
Qed.

Lemma nth_error_concat_here (pre : list Layer) (l : Layer) (post : list Layer)
  (k : nat) (p : Point) :
  nth_error l k = Some p ->
  nth_error (concat (pre ++ l :: post)) (length (concat pre) + k) = Some p.
Proof.
  intros Hk. rewrite concat_app. cbn [concat].
  rewrite nth_error_app2 by lia.
  replace (length (concat pre) + k - length (concat pre)) with k by lia.
  rewrite nth_error_app1; [exact Hk|]. apply nth_error_Some. congruence.
Qed.

Lemma nth_error_concat_later (pre : list Layer) (l : Layer)
  (post : list Layer) (k : nat) (q : Point) :
  nth_error (concat post) k = Some q ->
  nth_error (concat (pre ++ l :: post)) (length (concat pre) + length l + k)
  = Some q.
Proof.
  intros Hk. rewrite concat_app. cbn [concat].
  rewrite nth_error_app2 by lia. rewrite nth_error_app2 by lia.
  replace (length (concat pre) + length l + k - length (concat pre) - length l)
    with k by lia.
  exact Hk.
Qed.

(** ** The claims *)

(** C8. After construction from any sequence of layers the start offsets
    are non-decreasing, the offset of layer [i] is the sum of the sizes of
    the layers before it, and the concatenated point sequence has the sum
    of all layer sizes as its length; [cluster_all_layers] and
    [compress_match] leave the layers, the offsets and the point sequence
    as they are. *)
Theorem offsets_cumulative (ls : list Layer) (st : MultiLayerCluster) :
  __init__ ls = Ok st ->
  length (layer_start_idx st) = length ls /\
  (forall i, i < length ls ->
     nth i (layer_start_idx st) 0
     = list_sum (map (@length Point) (firstn i ls))) /\
  (forall i j, i <= j -> j < length ls ->
     nth i (layer_start_idx st) 0 <= nth j (layer_start_idx st) 0) /\
  layers_combined st = concat ls /\
  length (layers_combined st) = list_sum (map (@length Point) ls) /\
  (forall self r1 r2 self' adj,
     cluster_all_layers self r1 r2 = Ok (self', adj) ->
     layers self' = layers self /\
     layer_start_idx self' = layer_start_idx self /\
     layers_combined self' = layers_combined self) /\
  (forall self self' clusters,
     compress_match self = Ok (self', clusters) -> self' = self).
Proof.
  intros Hinit. apply init_ok_built in Hinit. destruct Hinit as [-> _].
  cbn [built layer_start_idx layers_combined].
  assert (Hoff : forall i, i < length ls ->
            nth i (offsets 0 ls) 0
            = list_sum (map (@length Point) (firstn i ls)))
    by (intros i Hi; rewrite offsets_nth by exact Hi; apply length_concat).
  split; [apply offsets_length|]. split; [exact Hoff|].
  split; [|split; [reflexivity|split; [apply length_concat|split]]].
  - intros i j Hij Hj. rewrite !Hoff by lia.
    assert (Hpre : firstn j ls = firstn i ls ++ skipn i (firstn j ls)).
    { rewrite <- (firstn_skipn i (firstn j ls)) at 1.
      rewrite firstn_firstn. replace (Nat.min i j) with i by lia.
      reflexivity. }
    rewrite Hpre, map_app, list_sum_app. apply Nat.le_add_r.
  - intros self r1 r2 self' adj H. unfold cluster_all_layers in H.
    apply bind_ok_inv in H. destruct H as (matches & _ & H).
    inversion H. auto.
  - intros self self' clusters H. unfold compress_match in H.
    apply bind_ok_inv in H. destruct H as (uf & _ & H).
    inversion H. reflexivity.
Qed.

Lemma offsets_cumulative_witness :
  __init__ demo_layers = Ok (built demo_layers) /\
  layer_start_idx (built demo_layers) = [0; 3; 7; 7] /\
  length (layers_combined (built demo_layers))
  = list_sum (map (@length Point) demo_layers).
Proof.
  split; [reflexivity|]. split; [reflexivity|].
  apply (@offsets_cumulative demo_layers (built demo_layers)).
  reflexivity.
Defined.

(** C4. A second call of [cluster_all_layers] on the same instance appends
    to the stored match list: its result has length [2 * n], [n] the
    number of points, and starts with the result of the first call; with
    the same radii the second call returns and its result is the first
    result twice. *)
Theorem second_call_appends (ls : list Layer) (st st1 : MultiLayerCluster)
  (r1 r2 : Q) (res1 : list (list nat)) :
  __init__ ls = Ok st ->
  cluster_all_layers st r1 r2 = Ok (st1, res1) ->
  length res1 = length (layers_combined st) /\
  (forall r1' r2' st2 res2,
     cluster_all_layers st1 r1' r2' = Ok (st2, res2) ->
     length res2 = 2 * length (layers_combined st) /\
     firstn (length (layers_combined st)) res2 = res1 /\
     match_all_layers st2 = res2) /\
  exists st2,
    cluster_all_layers st1 r1 r2 = Ok (st2, res1 ++ res1) /\
    match_all_layers st2 = res1 ++ res1.
Proof.
  intros Hinit Hcl.
  destruct (@fresh_cluster ls st st1 r1 r2 res1 Hinit Hcl)
    as (-> & _ & Hadj & -> & _).
  pose proof (proj1 (@adjacency_In r1 r2 ls 0 res1 Hadj)) as Hlen.
  cbn [built layers_combined].
  assert (Hinst : instance_of ls (set_match_all_layers (built ls) res1))
    by (apply set_match_instance, built_instance).
  split; [exact Hlen|]. split.
  - intros r1' r2' st2 res2 H2.
    rewrite (cluster_spec r1' r2' Hinst) in H2.
    apply bind_ok_inv in H2. destruct H2 as (adj' & Hadj' & H2).
    cbn [set_match_all_layers match_all_layers] in H2.
    inversion H2; subst. clear H2.
    pose proof (proj1 (@adjacency_In r1' r2' ls 0 adj' Hadj')) as Hlen'.
    rewrite length_app, <- Hlen, firstn_app, Nat.sub_diag, firstn_all.
    cbn [firstn]. rewrite app_nil_r. repeat split; lia.
  - eexists. rewrite (cluster_spec r1 r2 Hinst), Hadj. cbn [bind].
    split; reflexivity.
Qed.

Lemma second_call_appends_witness :
  __init__ demo_layers = Ok (built demo_layers) /\
  cluster_all_layers (built demo_layers) cluster_r dsa_r
  = Ok (demo_dsa, demo_result) /\
  exists st2,
    cluster_all_layers demo_dsa cluster_r dsa_r
    = Ok (st2, demo_result ++ demo_result) /\
    match_all_layers st2 = demo_result ++ demo_result.
Proof.
  split; [reflexivity|]. split; [reflexivity|].
  apply (@second_call_appends demo_layers (built demo_layers) demo_dsa
           cluster_r dsa_r demo_result); reflexivity.
Defined.

(** C7. After one call of [cluster_all_layers] on a fresh instance,
    [compress_match] returns a partition of the global indices [0..n-1]:
    every index is a member of exactly one cluster, no cluster has a
    member outside the range, the roots are distinct and no cluster is
    empty; when all layers are empty there is no cluster at all. *)
Theorem clusters_partition (ls : list Layer) (st st1 : MultiLayerCluster)
  (r1 r2 : Q) (adj : list (list nat)) :
  __init__ ls = Ok st ->
  cluster_all_layers st r1 r2 = Ok (st1, adj) ->
  exists clusters,
    compress_match st1 = Ok (st1, clusters) /\
    (forall g, g < length (concat ls) ->
       exists r members,
         In (r, members) clusters /\ In g members /\
         forall r' members',
           In (r', members') clusters -> In g members' ->
           r' = r /\ members' = members) /\
    (forall r members g,
       In (r, members) clusters -> In g members -> g < length (concat ls)) /\
    NoDup (map fst clusters) /\
    (forall r members,
       In (r, members) clusters -> NoDup members /\ members <> []) /\
    (Forall (fun l => l = []) ls -> clusters = []).
Proof.
  intros Hinit Hcl.
  destruct (@fresh_cluster ls st st1 r1 r2 adj Hinit Hcl)
    as (-> & _ & Hadj & -> & Hm).
  pose proof (proj1 (@adjacency_In r1 r2 ls 0 adj Hadj)) as Hlen.
  assert (Hclosed : closed_adj
            (match_all_layers (set_match_all_layers (built ls) adj)))
    by (apply (@adjacency_closed r1 r2 ls adj Hadj)).
  destruct (@compress_match_clusters _ Hclosed)
    as (clusters & Hc & Hkeys & _ & Hpart & Hrange & Hne & Hnil).
  cbn [set_match_all_layers match_all_layers] in Hpart, Hrange, Hnil.
  rewrite Hlen in Hpart, Hrange.
  exists clusters. repeat split; try assumption.
  - apply (Hne r members H).
  - apply (Hne r members H).
  - intros Hall. apply Hnil. apply length_zero_iff_nil. rewrite Hlen.
    clear -Hall. induction Hall as [|l ls' -> _ IH]; [reflexivity|exact IH].
Qed.

Lemma clusters_partition_witness :
  __init__ demo_layers = Ok (built demo_layers) /\
  cluster_all_layers (built demo_layers) cluster_r dsa_r
  = Ok (demo_dsa, demo_result) /\
  exists clusters,
    compress_match demo_dsa = Ok (demo_dsa, clusters) /\
    forall g, g < length (concat demo_layers) ->
      exists r members,
        In (r, members) clusters /\ In g members /\
        forall r' members',
          In (r', members') clusters -> In g members' ->
          r' = r /\ members' = members.
Proof.
  split; [reflexivity|]. split; [reflexivity|].
  destruct (@clusters_partition demo_layers (built demo_layers) demo_dsa
              cluster_r dsa_r demo_result eq_refl eq_refl)
    as (clusters & Hc & Hpart & _).
  exists clusters. split; [exact Hc | exact Hpart].
Defined.

(** The scenario of section 8 of the specification: no point, no cluster. *)
Example all_layers_empty : run [[]; []; []] cluster_r dsa_r = Ok ([], []).
Proof. reflexivity. Qed.

(** C9. With non-negative radii every point is in the same cluster as
    itself: the adjacency entry of every point (every point lies in a
    non-empty layer) holds the point's own global index, and a point
    without neighbours, one that no other point lists and that lists no
    other point, is a cluster of its own. *)
Theorem self_match (ls : list Layer) (st st1 : MultiLayerCluster)
  (r1 r2 : Q) (adj : list (list nat)) :
  __init__ ls = Ok st ->
  (0 <= r1)%Q -> (0 <= r2)%Q ->
  cluster_all_layers st r1 r2 = Ok (st1, adj) ->
  length adj = length (layers_combined st) /\
  (forall g, g < length (layers_combined st) -> In g (nth g adj [])) /\
  exists clusters,
    compress_match st1 = Ok (st1, clusters) /\
    (forall g, g < length (layers_combined st) -> same_cluster clusters g g) /\
    (forall g, g < length (layers_combined st) ->
       (forall x, In x (nth g adj []) -> x = g) ->
       (forall h, In g (nth h adj []) -> h = g) ->
       exists r, In (r, [g]) clusters).
Proof.
  intros Hinit Hr1 Hr2 Hcl.
  destruct (@fresh_cluster ls st st1 r1 r2 adj Hinit Hcl)
    as (-> & _ & Hadj & -> & Hm).
  destruct (@adjacency_In r1 r2 ls 0 adj Hadj) as [Hlen Hin].
  cbn [built layers_combined].
  assert (Hself : forall g, g < length (concat ls) -> In g (nth g adj [])).
  { intros g Hg.
    destruct (@locate ls g Hg) as (pre & l & post & k & p & Hls & -> & Hk).
    apply (Hin pre l post Hls k p Hk). left. exists k, p.
    split; [reflexivity|]. split; [exact Hk|]. apply within_self, Hr1. }
  split; [exact Hlen|]. split; [exact Hself|].
  assert (Hclosed : closed_adj
            (match_all_layers (set_match_all_layers (built ls) adj)))
    by (apply (@adjacency_closed r1 r2 ls adj Hadj)).
  destruct (@compress_match_clusters _ Hclosed)
    as (clusters & Hc & _ & Hsame & Hpart & _ & Hne & _).
  cbn [set_match_all_layers match_all_layers] in Hsame, Hpart.
  rewrite Hlen in Hsame, Hpart.
  exists clusters. split; [exact Hc|]. split.
  - intros g Hg. apply Hsame. repeat split; try assumption. apply rst_refl.
  - intros g Hg Hout Hinc.
    destruct (Hpart g Hg) as (r & ms & Hms & Hgm & _).
    exists r. replace [g] with ms; [exact Hms|].
    apply NoDup_all_equal; [apply (Hne r ms Hms) | exact Hgm |].
    intros x Hx.
    assert (Hxg : same_cluster clusters x g) by (exists r, ms; auto).
    apply Hsame in Hxg. destruct Hxg as (_ & _ & Hconn).
    apply (@connected_isolated adj g Hout Hinc x g Hconn). reflexivity.
Qed.

Lemma self_match_witness :
  __init__ [[[0; 0]]; [[1; 0]]]%Q = Ok (built [[[0; 0]]; [[1; 0]]]%Q) /\
  (0 <= 1 # 2)%Q /\
  cluster_all_layers (built [[[0; 0]]; [[1; 0]]]%Q) (1 # 2) (1 # 2)
  = Ok (set_match_all_layers (built [[[0; 0]]; [[1; 0]]]%Q) [[0]; [1]],
        [[0]; [1]]) /\
  exists clusters,
    compress_match
      (set_match_all_layers (built [[[0; 0]]; [[1; 0]]]%Q) [[0]; [1]])
    = Ok (set_match_all_layers (built [[[0; 0]]; [[1; 0]]]%Q) [[0]; [1]],
          clusters) /\
    exists r, In (r, [1]) clusters.
Proof.
  assert (Hr : (0 <= 1 # 2)%Q) by (unfold Qle; simpl; lia).
  split; [reflexivity|]. split; [exact Hr|]. split; [reflexivity|].
  destruct (@self_match [[[0; 0]]; [[1; 0]]]%Q
              (built [[[0; 0]]; [[1; 0]]]%Q)
              (set_match_all_layers (built [[[0; 0]]; [[1; 0]]]%Q)
                 [[0]; [1]])
              (1 # 2) (1 # 2) [[0]; [1]] eq_refl Hr Hr eq_refl)
    as (_ & _ & clusters & Hc & _ & Hsingle).
  exists clusters. split; [exact Hc|].
  apply (Hsingle 1).
  - simpl. lia.
  - simpl. intros x [<- | []]. reflexivity.
  - intros [|[|h]]; simpl; intros H.
    + destruct H as [H | []]. discriminate.
    + reflexivity.
    + destruct h; destruct H.
Defined.

(** C10. After one call on a fresh instance every neighbour index is a
    valid global index: the entry of the point at position [k] of layer
    [i] consists of same-layer neighbours, which lie in the offset range
    of layer [i], followed by cross-layer neighbours, each in the offset
    range of some layer [j > i]; so every neighbour index is below the
    number of points, and [compress_match] performs all its unions inside
    the universe and returns. *)
Theorem neighbour_indices_valid (ls : list Layer) (st st1 : MultiLayerCluster)
  (r1 r2 : Q) (adj : list (list nat)) :
  __init__ ls = Ok st ->
  cluster_all_layers st r1 r2 = Ok (st1, adj) ->
  length adj = length (layers_combined st) /\
  (forall i k, i < length ls -> k < length (nth i ls []) ->
     exists same cross,
       nth (nth i (layer_start_idx st) 0 + k) adj [] = same ++ cross /\
       (forall g, In g same ->
          nth i (layer_start_idx st) 0 <= g
          < nth i (layer_start_idx st) 0 + length (nth i ls [])) /\
       (forall g, In g cross ->
          exists j, i < j /\ j < length ls /\
            nth j (layer_start_idx st) 0 <= g
            < nth j (layer_start_idx st) 0 + length (nth j ls []))) /\
  (forall x g, In g (nth x adj []) -> g < length (layers_combined st)) /\
  exists clusters, compress_match st1 = Ok (st1, clusters).
Proof.
  intros Hinit Hcl.
  destruct (@fresh_cluster ls st st1 r1 r2 adj Hinit Hcl)
    as (-> & _ & Hadj & -> & Hm).
  pose proof (proj1 (@adjacency_In r1 r2 ls 0 adj Hadj)) as Hlen.
  pose proof (@adjacency_closed r1 r2 ls adj Hadj) as Hclosed.
  cbn [built layers_combined layer_start_idx].
  split; [exact Hlen|]. split; [|split].
  - intros i k Hi Hk.
    destruct (@split_layers ls i Hi) as (pre & l & post & Hls & Hpre).
    subst ls i. rewrite layer_at in Hk |- *. rewrite nth_offsets.
    destruct (@adjacency_split r1 r2 _ 0 adj Hadj pre l post eq_refl k Hk)
      as (same & cross & Heq & Hs & Hc).
    exists same, cross. split; [exact Heq|]. split.
    + intros g Hg. specialize (Hs g Hg). lia.
    + intros g Hg. specialize (Hc g Hg).
      assert (Hg' : g - length (concat pre) - length l
                    < length (concat post)) by lia.
      destruct (@locate post _ Hg')
        as (pre' & l' & post' & k' & p & -> & Hgk & Hk').
      assert (Hk'lt : k' < length l') by (apply nth_error_Some; congruence).
      assert (E : pre ++ l :: pre' ++ l' :: post'
                  = (pre ++ l :: pre') ++ l' :: post')
        by (rewrite <- app_assoc; reflexivity).
      exists (length (pre ++ l :: pre')). rewrite E.
      rewrite layer_at, nth_offsets.
      split; [rewrite length_app; cbn [length]; lia|].
      split; [rewrite (length_app (pre ++ l :: pre')); cbn [length]; lia|].
      rewrite concat_app. cbn [concat]. rewrite !length_app. lia.
  - intros x g Hg. rewrite <- Hlen. apply (Hclosed x g Hg).
  - assert (Hclosed' : closed_adj
              (match_all_layers (set_match_all_layers (built ls) adj)))
      by exact Hclosed.
    destruct (@compress_match_clusters _ Hclosed') as (clusters & Hc & _).
    exists clusters. exact Hc.
Qed.

Lemma neighbour_indices_valid_witness :
  __init__ demo_layers = Ok (built demo_layers) /\
  cluster_all_layers (built demo_layers) cluster_r dsa_r
  = Ok (demo_dsa, demo_result) /\
  (forall x g, In g (nth x demo_result []) ->
               g < length (layers_combined (built demo_layers))) /\
  exists clusters, compress_match demo_dsa = Ok (demo_dsa, clusters).
Proof.
  split; [reflexivity|]. split; [reflexivity|].
  apply (@neighbour_indices_valid demo_layers (built demo_layers) demo_dsa
           cluster_r dsa_r demo_result eq_refl eq_refl).
Defined.

(** C6. Clustering is monotonic in the radii: for fixed layers and
    non-negative radii [r1 <= r1'], [r2 <= r2'], two points that share a
    cluster with [(r1, r2)] share a cluster with [(r1', r2')]. *)
Theorem radius_monotonic (ls : list Layer) (st st1 : MultiLayerCluster)
  (r1 r2 r1' r2' : Q) (adj1 : list (list nat)) :
  __init__ ls = Ok st ->
  (0 <= r1)%Q -> (r1 <= r1')%Q -> (0 <= r2)%Q -> (r2 <= r2')%Q ->
  cluster_all_layers st r1 r2 = Ok (st1, adj1) ->
  exists clusters1 st2 adj2 clusters2,
    compress_match st1 = Ok (st1, clusters1) /\
    cluster_all_layers st r1' r2' = Ok (st2, adj2) /\
    compress_match st2 = Ok (st2, clusters2) /\
    forall a b, same_cluster clusters1 a b -> same_cluster clusters2 a b.
Proof.
  intros Hinit H01 Hr1 H02 Hr2 Hcl.
  destruct (@fresh_cluster ls st st1 r1 r2 adj1 Hinit Hcl)
    as (-> & _ & Hadj1 & -> & _).
  assert (Hok : is_ok (adjacency r1' r2' 0 ls) = true)
    by (rewrite adjacency_ok, <- (adjacency_ok r1 r2 ls 0), Hadj1;
        reflexivity).
  apply is_ok_true in Hok. destruct Hok as [adj2 Hadj2].
  destruct (@adjacency_In r1 r2 ls 0 adj1 Hadj1) as [Hlen1 Hin1].
  destruct (@adjacency_In r1' r2' ls 0 adj2 Hadj2) as [Hlen2 Hin2].
  assert (Hedge : forall a b, edge adj1 a b -> edge adj2 a b).
  { intros a b [Ha Hb]. split; [lia|]. rewrite Hlen1 in Ha.
    destruct (@locate ls a Ha) as (pre & l & post & k & p & Hls & -> & Hk).
    apply (Hin2 pre l post Hls k p Hk).
    apply (Hin1 pre l post Hls k p Hk) in Hb.
    destruct Hb as [(k' & q & Hg & Hn & Hw) | (k' & q & Hg & Hn & Hw)];
      [left | right]; exists k', q; repeat split; try assumption.
    - apply (within_mono _ _ H01 Hr1 Hw).
    - apply (within_mono _ _ H02 Hr2 Hw). }
  assert (Hconn : forall a b, connected adj1 a b -> connected adj2 a b).
  { intros a b H.
    induction H as [a b Hab | a | a b _ IH | a b c _ IH1 _ IH2].
    - apply rst_step, Hedge, Hab.
    - apply rst_refl.
    - apply rst_sym, IH.
    - apply rst_trans with b; assumption. }
  assert (Hc1 : closed_adj
            (match_all_layers (set_match_all_layers (built ls) adj1)))
    by (apply (@adjacency_closed r1 r2 ls adj1 Hadj1)).
  assert (Hc2 : closed_adj
            (match_all_layers (set_match_all_layers (built ls) adj2)))
    by (apply (@adjacency_closed r1' r2' ls adj2 Hadj2)).
  destruct (@compress_match_clusters _ Hc1) as (c1 & Hcm1 & _ & Hs1 & _).
  destruct (@compress_match_clusters _ Hc2) as (c2 & Hcm2 & _ & Hs2 & _).
  cbn [set_match_all_layers match_all_layers] in Hs1, Hs2.
  exists c1, (set_match_all_layers (built ls) adj2), adj2, c2.
  split; [exact Hcm1|]. split; [|split; [exact Hcm2|]].
  - rewrite (cluster_spec r1' r2' (built_instance ls)), Hadj2. reflexivity.
  - intros a b H. apply Hs1 in H. destruct H as (Ha & Hb & H).
    apply Hs2. repeat split; try lia. apply Hconn, H.
Qed.

Lemma radius_monotonic_witness :
  __init__ demo_layers = Ok (built demo_layers) /\
  (0 <= cluster_r)%Q /\ (cluster_r <= 3 # 10)%Q /\
  (0 <= dsa_r)%Q /\ (dsa_r <= 3 # 10)%Q /\
  cluster_all_layers (built demo_layers) cluster_r dsa_r
  = Ok (demo_dsa, demo_result) /\
  exists clusters1 st2 adj2 clusters2,
    compress_match demo_dsa = Ok (demo_dsa, clusters1) /\
    cluster_all_layers (built demo_layers) (3 # 10) (3 # 10)
    = Ok (st2, adj2) /\
    compress_match st2 = Ok (st2, clusters2) /\
    forall a b, same_cluster clusters1 a b -> same_cluster clusters2 a b.
Proof.
  assert (H0 : (0 <= 2 # 10)%Q) by (unfold Qle; simpl; lia).
  assert (H1 : (2 # 10 <= 3 # 10)%Q) by (unfold Qle; simpl; lia).
  split; [reflexivity|]. repeat (split; [assumption|]).
  split; [reflexivity|].
  apply (@radius_monotonic demo_layers (built demo_layers) demo_dsa
           cluster_r dsa_r (3 # 10) (3 # 10) demo_result
           eq_refl H0 H1 H0 H1 eq_refl).
Defined.

(** C5. An empty layer contributes nothing: its index is absent, its
    offset slice has size 0, its turn in the outer loop adds no entry to
    the adjacency list, a cross-layer query against it adds no neighbour
    and raises no error, and the whole run (adjacency list and clusters)
    is the run on the layers without it; the global indices of the
    remaining points are the same in both runs, the empty layer holding
    none. *)
Theorem empty_layer_neutral (pre post : list Layer) (r1 r2 : Q) :
  run (pre ++ [] :: post) r1 r2 = run (pre ++ post) r1 r2 /\
  is_ok (__init__ (pre ++ [] :: post)) = is_ok (__init__ (pre ++ post)) /\
  forall st, __init__ (pre ++ [] :: post) = Ok st ->
    layers_combined st = concat (pre ++ post) /\
    nth_error (layers_tree st) (length pre) = Some None /\
    nth (length pre) (layer_start_idx st) 0 = length (concat pre) /\
    nth (S (length pre))
        (layer_start_idx st ++ [length (layers_combined st)]) 0
    = nth (length pre) (layer_start_idx st) 0 /\
    (forall acc, layer_step st r1 r2 acc (length pre) = Ok acc) /\
    (forall i tree_i match_i,
       nth_error (layers st) i = Some (data tree_i) ->
       length match_i = length (data tree_i) ->
       cross_layer st r2 i tree_i match_i (length pre) = Ok match_i).
Proof.
  assert (Hu : forallb uniform (pre ++ [] :: post)
               = forallb uniform (pre ++ post))
    by (rewrite !forallb_app; reflexivity).
  assert (Hcat : concat (pre ++ [] :: post) = concat (pre ++ post))
    by (rewrite !concat_app; reflexivity).
  split; [|split].
  - unfold run. rewrite !init_spec, Hu.
    destruct (forallb uniform (pre ++ post)); [|reflexivity]. cbn [bind].
    rewrite !(cluster_spec r1 r2 (built_instance _)).
    rewrite adjacency_skip_empty.
    destruct (adjacency r1 r2 0 (pre ++ post)) as [adj|e]; [|reflexivity].
    cbn [bind]. unfold compress_match.
    cbn [set_match_all_layers match_all_layers built app].
    destruct (foldM _ (enumerate adj) _); reflexivity.
  - rewrite !init_spec, Hu.
    destruct (forallb uniform (pre ++ post)); reflexivity.
  - intros st Hinit. apply init_ok_built in Hinit. destruct Hinit as [-> _].
    cbn [built layers_combined layers_tree layer_start_idx layers].
    assert (Hgt : get (map tree_of (pre ++ [] :: post)) (length pre)
                  = Ok None) by apply get_tree.
    assert (Hgo : get (offsets 0 (pre ++ [] :: post)) (length pre)
                  = Ok (length (concat pre))) by apply get_offsets.
    split; [exact Hcat|]. split; [apply get_ok_iff; exact Hgt|].
    rewrite nth_offsets. split; [reflexivity|]. split; [|split].
    + destruct post as [|l' post'].
      * rewrite app_nth2; rewrite offsets_length, length_app;
          cbn [length]; [|lia].
        replace (S (length pre) - (length pre + 1)) with 0 by lia.
        cbn [nth]. rewrite concat_app, length_app. simpl. lia.
      * rewrite app_nth1
          by (rewrite offsets_length, !length_app; cbn [length]; lia).
        replace (pre ++ [] :: l' :: post')
          with ((pre ++ [[]]) ++ l' :: post')
          by (rewrite <- app_assoc; reflexivity).
        replace (S (length pre)) with (length (pre ++ [[]]))
          by (rewrite length_app; cbn [length]; lia).
        rewrite nth_offsets, concat_app, length_app. simpl. lia.
    + intros acc. unfold layer_step.
      cbn [built layers_tree]. rewrite Hgt. cbn [bind].
      rewrite app_nil_r. reflexivity.
    + intros i ti acc Hi Hacc. unfold cross_layer.
      cbn [built layers_tree layer_start_idx layers].
      rewrite Hgt, Hgo. cbn [bind].
      assert (Hgi : get (pre ++ [] :: post) i = Ok (data ti))
        by (apply get_ok_iff; exact Hi).
      rewrite Hgi. cbn [bind].
      rewrite mapM_zip.
      * rewrite zip_app_empty; [reflexivity|].
        unfold range. rewrite length_seq. lia.
      * exact Hacc.
      * rewrite shift_idx_length. unfold range.
        rewrite length_map, length_seq. lia.
Qed.

Lemma empty_layer_neutral_witness :
  __init__ demo_layers = Ok (built demo_layers) /\
  run demo_layers cluster_r dsa_r = run [l1; l2; l4] cluster_r dsa_r /\
  layers_combined (built demo_layers) = concat [l1; l2; l4] /\
  nth_error (layers_tree (built demo_layers)) 2 = Some None.
Proof.
  split; [reflexivity|].
  destruct (@empty_layer_neutral [l1; l2] [l4] cluster_r dsa_r)
    as (Hrun & _ & Hst).
  split; [exact Hrun|].
  destruct (Hst (built demo_layers) eq_refl) as (Hc & Ht & _).
  split; [exact Hc | exact Ht].
Defined.

Lemma cluster_is_ok (ls : list Layer) (st : MultiLayerCluster) (r1 r2 : Q) :
  __init__ ls = Ok st ->
  is_ok (cluster_all_layers st r1 r2) = consistent ls.
Proof.
  intros Hinit. apply init_ok_built in Hinit. destruct Hinit as [-> _].
  rewrite (cluster_spec r1 r2 (built_instance ls)).
  rewrite <- (adjacency_ok r1 r2 ls 0).
  destruct (adjacency r1 r2 0 ls); reflexivity.
Qed.

(** C2 as stated fails: a call with a negative self radius and a call
    with a negative cross-layer radius both return an adjacency list (the
    one of the radii 1 and 1). *)
Lemma negative_radius_returns :
  exists dsa dsa1 dsa2,
    __init__ [[[0; 0]]; [[0; 1]]]%Q = Ok dsa /\
    cluster_all_layers dsa (-1 # 1) 1 = Ok (dsa1, [[0; 1]; [1]]) /\
    cluster_all_layers dsa 1 (-1 # 1) = Ok (dsa2, [[0; 1]; [1]]).
Proof.
  eexists _, _, _. repeat split; vm_compute; reflexivity.
Qed.

(** C3 as stated fails: two layers of different dimensionality are
    accepted by the constructor, which builds both indexes, and the
    mismatch is raised by the radius query of [cluster_all_layers]. *)
Lemma mixed_dimensions_accepted :
  exists dsa t0 t1,
    __init__ [[[0; 0]]; [[0; 0; 0]]]%Q = Ok dsa /\
    layers_tree dsa = [Some t0; Some t1] /\
    m t0 = 2 /\ m t1 = 3 /\
    cluster_all_layers dsa 1 1 = Raise ValueError.
Proof.
  eexists _, _, _. repeat split; vm_compute; reflexivity.
Qed.

(** C1. The demonstration: on a fresh instance for the four layers, one
    call of [cluster_all_layers] with both radii 0.2 followed by
    [compress_match] gives exactly three clusters, with the members
    {(1,1), (1.1,1.1), (0.9,0.9), (1.15,1.15)}, {(2,2), (2.1,2.1)} and
    {(3,3), (3.2,3.2), (3.1,3.1)}, that is the global indices
    {0,3,4,7}, {1,5} and {2,6,8}. *)
Theorem demo_clusters :
  exists dsa dsa' result clusters,
    __init__ demo_layers = Ok dsa /\
    cluster_all_layers dsa cluster_r dsa_r = Ok (dsa', result) /\
    compress_match dsa' = Ok (dsa', clusters) /\
    Permutation (map snd clusters) [[0; 3; 4; 7]; [1; 5]; [2; 6; 8]] /\
    Permutation
      (map (fun c => map (fun g => nth g (layers_combined dsa') []) (snd c))
           clusters)
      [[[1; 1]; [11 # 10; 11 # 10]; [9 # 10; 9 # 10];
        [115 # 100; 115 # 100]];
       [[2; 2]; [21 # 10; 21 # 10]];
       [[3; 3]; [32 # 10; 32 # 10]; [31 # 10; 31 # 10]]]%Q.
Proof.
  exists (built demo_layers), demo_dsa, demo_result,
    [(1, [1; 5]); (0, [0; 3; 4; 7]); (2, [2; 6; 8])].
  split; [reflexivity|]. split; [reflexivity|]. split; [reflexivity|].
  split; apply perm_swap.
Qed.

(** ** Further properties of the code *)

(** *** [_shift_idx] *)

(** X1. [_shift_idx] keeps the number of lists and the length of each of
    them, a shift by 0 changes nothing, and two shifts in a row are one
    shift by the sum. *)
Theorem shift_idx_compose (match_ij : list (list nat)) (a b : nat) :
  map (@length nat) (_shift_idx match_ij a) = map (@length nat) match_ij /\
  _shift_idx match_ij 0 = match_ij /\
  _shift_idx (_shift_idx match_ij a) b = _shift_idx match_ij (a + b).
Proof.
  unfold _shift_idx. repeat split.
  - rewrite map_map. apply map_ext. intros l. apply length_map.
  - rewrite <- (map_id match_ij) at 2. apply map_ext. intros l.
    rewrite <- (map_id l) at 2. apply map_ext. intros x. lia.
  - rewrite map_map. apply map_ext. intros l. rewrite map_map.
    apply map_ext. intros x. lia.
Qed.

(** *** The constructor *)

(** X2. The constructor keeps the layers as given, starts with an empty
    match list and stores one index slot per layer: [None] for an empty
    layer, and for a non-empty layer an index over exactly the points of
    that layer, all of them of the index's dimensionality. *)
Theorem init_index_per_layer (ls : list Layer) (st : MultiLayerCluster) :
  __init__ ls = Ok st ->
  layers st = ls /\ num_layers st = length ls /\
  match_all_layers st = [] /\
  length (layers_tree st) = length ls /\
  forall i l, nth_error ls i = Some l ->
    (l = [] -> nth_error (layers_tree st) i = Some None) /\
    (l <> [] ->
     exists t, nth_error (layers_tree st) i = Some (Some t) /\
               data t = l /\ forall p, In p l -> length p = m t).
Proof.
  intros Hinit. destruct (@init_ok_built ls st Hinit) as [-> Hu].
  cbn [built layers num_layers match_all_layers layers_tree].
  repeat split; try apply length_map.
  - intros ->. rewrite nth_error_map, H. reflexivity.
  - intros Hne. rewrite nth_error_map, H. cbn [option_map].
    destruct l as [|p0 l]; [contradiction|]. cbn [tree_of].
    eexists. split; [reflexivity|]. cbn [data m]. split; [reflexivity|].
    intros p Hp. apply each_uniform_iff in Hu.
    apply (Hu (p0 :: l) p p0); [apply (nth_error_In _ _ H) | exact Hp|].
    left. reflexivity.
Qed.

Lemma init_index_per_layer_witness :
  __init__ demo_layers = Ok (built demo_layers) /\
  nth_error (layers_tree (built demo_layers)) 2 = Some None /\
  exists t, nth_error (layers_tree (built demo_layers)) 3 = Some (Some t) /\
            data t = l4 /\ forall p, In p l4 -> length p = m t.
Proof.
  split; [reflexivity|].
  destruct (@init_index_per_layer demo_layers (built demo_layers) eq_refl)
    as (_ & _ & _ & _ & H).
  split.
  - apply (H 2 l3 eq_refl). reflexivity.
  - apply (H 3 l4 eq_refl). discriminate.
Defined.

(** *** Instances after any number of calls *)

Lemma reachable_instance (ls : list Layer) (k : nat) (st : MultiLayerCluster) :
  reachable ls k st -> instance_of ls st /\ each_uniform ls.
Proof.
  induction 1 as [st Hinit | k st r1 r2 st' res _ [IH Hu] Hcl].
  - destruct (@init_ok_built ls st Hinit) as [-> Hu].
    split; [apply built_instance | apply each_uniform_iff; exact Hu].
  - split; [|exact Hu]. rewrite (cluster_spec r1 r2 IH) in Hcl.
    apply bind_ok_inv in Hcl. destruct Hcl as (adj & _ & Hcl).
    inversion Hcl. apply set_match_instance, IH.
Qed.

Lemma cross_from_raise (ti : KDTree) (r : Q) (rest : list Layer) :
  forall off acc e, cross_from ti r off rest acc = Raise e -> e = ValueError.
Proof.
  induction rest as [|lj rest IH]; intros off acc e H; [discriminate|].
  cbn [cross_from] in H. destruct (tree_of lj) as [tj|].
  - unfold query_ball_tree in H. destruct (m ti =? m tj); cbn [bind] in H.
    + apply (IH _ _ _ H).
    + inversion H. reflexivity.
  - cbn [bind] in H. apply (IH _ _ _ H).
Qed.

Lemma adjacency_raise (r1 r2 : Q) (ls : list Layer) :
  forall off e, adjacency r1 r2 off ls = Raise e -> e = ValueError.
Proof.
  induction ls as [|l rest IH]; intros off e H; [discriminate|].
  cbn [adjacency] in H.
  destruct (layer_adj r1 r2 off l rest) as [this|e'] eqn:Hthis;
    cbn [bind] in H.
  - destruct (adjacency r1 r2 (off + length l) rest) as [more|e''] eqn:Hmore;
      cbn [bind] in H; [discriminate|].
    inversion H; subst. apply (IH _ _ Hmore).
  - inversion H; subst. unfold layer_adj in Hthis.
    destruct (tree_of l) as [ti|]; [|discriminate].
    unfold query_ball_tree in Hthis. rewrite Nat.eqb_refl in Hthis.
    cbn [bind] in Hthis. apply (cross_from_raise _ _ _ _ _ Hthis).
Qed.

(** X3. On an instance made by the constructor, after any number of
    calls, the list indexing of [cluster_all_layers] stays in bounds: the
    call never raises [IndexError], its only failure is the [ValueError]
    of a radius query, and whether it fails does not depend on the calls
    made before. *)
Theorem cluster_all_layers_only_query_errors (ls : list Layer) (k : nat)
  (st : MultiLayerCluster) (r1 r2 : Q) :
  reachable ls k st ->
  (forall e, cluster_all_layers st r1 r2 = Raise e -> e = ValueError) /\
  is_ok (cluster_all_layers st r1 r2) = consistent ls.
Proof.
  intros Hr. destruct (reachable_instance Hr) as [Hinst _].
  rewrite (cluster_spec r1 r2 Hinst). split.
  - intros e H.
    destruct (adjacency r1 r2 0 ls) as [adj|e'] eqn:Hadj; cbn [bind] in H;
      [discriminate|].
    inversion H; subst. apply (adjacency_raise _ _ _ _ Hadj).
  - rewrite <- (adjacency_ok r1 r2 ls 0).
    destruct (adjacency r1 r2 0 ls); reflexivity.
Qed.

Lemma cluster_all_layers_only_query_errors_witness :
  reachable demo_layers 1 demo_dsa /\
  is_ok (cluster_all_layers demo_dsa cluster_r dsa_r)
  = consistent demo_layers.
Proof.
  assert (Hr : reachable demo_layers 1 demo_dsa).
  { apply (@reach_call demo_layers 0 (built demo_layers) cluster_r dsa_r
             demo_dsa demo_result).
    - apply reach_init. reflexivity.
    - reflexivity. }
  split; [exact Hr|].
  apply (@cluster_all_layers_only_query_errors demo_layers 1 demo_dsa
           cluster_r dsa_r Hr).
Defined.

Lemma reachable_matches (ls : list Layer) (k : nat) (st : MultiLayerCluster) :
  reachable ls k st ->
  length (match_all_layers st) = k * length (concat ls) /\
  forall x g, In g (nth x (match_all_layers st) []) ->
              g < length (concat ls).
Proof.
  induction 1 as [st Hinit | k st r1 r2 st' res Hr [IHl IHc] Hcl].
  - destruct (@init_ok_built ls st Hinit) as [-> _]. cbn [built match_all_layers].
    split; [reflexivity|]. intros [|x] g [].
  - destruct (reachable_instance Hr) as [Hinst _].
    rewrite (cluster_spec r1 r2 Hinst) in Hcl.
    apply bind_ok_inv in Hcl. destruct Hcl as (adj & Hadj & Hcl).
    inversion Hcl; subst. clear Hcl.
    cbn [set_match_all_layers match_all_layers].
    pose proof (proj1 (@adjacency_In r1 r2 ls 0 adj Hadj)) as Hlen.
    pose proof (@adjacency_closed r1 r2 ls adj Hadj) as Hclosed.
    split; [rewrite length_app; lia|]. intros x g Hg.
    destruct (Nat.lt_ge_cases x (length (match_all_layers st))) as [Hx | Hx].
    + rewrite app_nth1 in Hg by exact Hx. apply (IHc x g Hg).
    + rewrite app_nth2 in Hg by exact Hx. rewrite <- Hlen.
      apply (Hclosed _ g Hg).
Qed.

Lemma reachable_closed (ls : list Layer) (k : nat) (st : MultiLayerCluster) :
  reachable ls k st -> closed_adj (match_all_layers st).
Proof.
  intros Hr a b Hb. destruct (reachable_matches Hr) as [Hlen Hlt].
  destruct (Nat.lt_ge_cases a (length (match_all_layers st))) as [Ha | Ha];
    [|rewrite nth_overflow in Hb by exact Ha; destruct Hb].
  specialize (Hlt a b Hb). rewrite Hlen in Ha |- *.
  destruct k; [simpl in Ha; lia|]. simpl. lia.
Qed.

Lemma reachable_clusters (ls : list Layer) (k : nat) (st : MultiLayerCluster) :
  reachable ls k st ->
  exists clusters,
    compress_match st = Ok (st, clusters) /\
    (forall a b, same_cluster clusters a b
                 <-> a < k * length (concat ls) /\
                     b < k * length (concat ls) /\
                     connected (match_all_layers st) a b) /\
    (forall g, g < k * length (concat ls) ->
               exists r members,
                 In (r, members) clusters /\ In g members /\
                 forall r' members',
                   In (r', members') clusters -> In g members' ->
                   r' = r /\ members' = members).
Proof.
  intros Hr. pose proof (reachable_closed Hr) as Hclosed.
  destruct (reachable_matches Hr) as [Hlen _].
  destruct (@compress_match_clusters st Hclosed)
    as (clusters & Hc & _ & Hsame & Hpart & _).
  rewrite Hlen in Hsame, Hpart. exists clusters. auto.
Qed.

Lemma adjacency_self (r1 r2 : Q) (ls : list Layer) (adj : list (list nat))
  (g : nat) :
  (0 <= r1)%Q -> adjacency r1 r2 0 ls = Ok adj ->
  g < length (concat ls) -> In g (nth g adj []).
Proof.
  intros Hr1 Hadj Hg.
  destruct (@adjacency_In r1 r2 ls 0 adj Hadj) as [_ Hin].
  destruct (@locate ls g Hg) as (pre & l & post & k & p & Hls & -> & Hk).
  apply (Hin pre l post Hls k p Hk). left. exists k, p.
  split; [reflexivity|]. split; [exact Hk|]. apply within_self, Hr1.
Qed.

(** X4. Every returned call of [cluster_all_layers] appends one block of
    [n] neighbour lists, [n] the number of points: after [k] earlier
    calls the stored list has [k * n] entries, the call returns that list
    followed by exactly what the same call returns on a fresh instance,
    and every neighbour index in it is below [n]. *)
Theorem calls_accumulate (ls : list Layer) (k : nat)
  (st st' : MultiLayerCluster) (r1 r2 : Q) (res : list (list nat)) :
  reachable ls k st ->
  cluster_all_layers st r1 r2 = Ok (st', res) ->
  length (match_all_layers st) = k * length (concat ls) /\
  match_all_layers st' = res /\
  length res = S k * length (concat ls) /\
  (exists st0 st1 block,
      __init__ ls = Ok st0 /\
      cluster_all_layers st0 r1 r2 = Ok (st1, block) /\
      res = match_all_layers st ++ block) /\
  forall x g, In g (nth x res []) -> g < length (concat ls).
Proof.
  intros Hr Hcl.
  assert (Hr' : reachable ls (S k) st') by (apply (@reach_call ls k st r1 r2 st' res Hr Hcl)).
  destruct (reachable_matches Hr) as [Hlen _].
  destruct (reachable_matches Hr') as [Hlen' Hlt'].
  destruct (reachable_instance Hr) as [Hinst Hu].
  rewrite (cluster_spec r1 r2 Hinst) in Hcl.
  apply bind_ok_inv in Hcl. destruct Hcl as (adj & Hadj & Hcl).
  inversion Hcl; subst. clear Hcl.
  cbn [set_match_all_layers match_all_layers] in *.
  split; [exact Hlen|]. split; [reflexivity|]. split; [exact Hlen'|].
  split; [|exact Hlt'].
  exists (built ls), (set_match_all_layers (built ls) adj), adj.
  split; [|split; [|reflexivity]].
  - rewrite init_spec. apply each_uniform_iff in Hu. rewrite Hu. reflexivity.
  - rewrite (cluster_spec r1 r2 (built_instance ls)), Hadj. reflexivity.
Qed.

Lemma calls_accumulate_witness :
  reachable demo_layers 0 (built demo_layers) /\
  cluster_all_layers (built demo_layers) cluster_r dsa_r
  = Ok (demo_dsa, demo_result) /\
  length demo_result = 1 * length (concat demo_layers) /\
  forall x g, In g (nth x demo_result []) -> g < length (concat demo_layers).
Proof.
  assert (Hr : reachable demo_layers 0 (built demo_layers))
    by (apply reach_init; reflexivity).
  split; [exact Hr|]. split; [reflexivity|].
  destruct (@calls_accumulate demo_layers 0 (built demo_layers) demo_dsa
              cluster_r dsa_r demo_result Hr eq_refl)
    as (_ & _ & Hlen & _ & Hlt).
  split; [exact Hlen | exact Hlt].
Defined.

(** X5. [compress_match] on an instance on which [cluster_all_layers] has
    not been called yet raises nothing and returns no cluster, whatever
    the layers hold. *)
Theorem compress_match_before_clustering (ls : list Layer)
  (st : MultiLayerCluster) :
  __init__ ls = Ok st -> compress_match st = Ok (st, []).
Proof.
  intros Hinit. destruct (@init_ok_built ls st Hinit) as [-> _].
  reflexivity.
Qed.

Lemma compress_match_before_clustering_witness :
  __init__ demo_layers = Ok (built demo_layers) /\
  compress_match (built demo_layers) = Ok (built demo_layers, []).
Proof.
  split; [reflexivity|].
  apply (@compress_match_before_clustering demo_layers (built demo_layers)).
  reflexivity.
Defined.

(** X6. On an instance made by the constructor, after any number of
    returned calls of [cluster_all_layers], [compress_match] returns and
    leaves the instance as it is; two indices share a cluster exactly
    when a chain of stored matches, followed in either direction,
    connects them; in particular every index shares a cluster with each
    index of its own neighbour list. *)
Theorem clusters_are_components (ls : list Layer) (k : nat)
  (st : MultiLayerCluster) :
  reachable ls k st ->
  exists clusters,
    compress_match st = Ok (st, clusters) /\
    (forall a b, same_cluster clusters a b
                 <-> a < length (match_all_layers st) /\
                     b < length (match_all_layers st) /\
                     connected (match_all_layers st) a b) /\
    (forall x g, In g (nth x (match_all_layers st) []) ->
                 same_cluster clusters x g).
Proof.
  intros Hr. pose proof (reachable_closed Hr) as Hclosed.
  destruct (reachable_matches Hr) as [Hlen _].
  destruct (reachable_clusters Hr) as (clusters & Hc & Hsame & _).
  rewrite <- Hlen in Hsame.
  exists clusters. split; [exact Hc|]. split; [exact Hsame|].
  intros x g Hg. apply Hsame.
  destruct (Nat.lt_ge_cases x (length (match_all_layers st))) as [Hx | Hx];
    [|rewrite nth_overflow in Hg by exact Hx; destruct Hg].
  split; [exact Hx|]. split; [apply (Hclosed x g Hg)|].
  apply rst_step. split; assumption.
Qed.

Lemma clusters_are_components_witness :
  reachable demo_layers 1 demo_dsa /\
  exists clusters,
    compress_match demo_dsa = Ok (demo_dsa, clusters) /\
    forall x g, In g (nth x (match_all_layers demo_dsa) []) ->
                same_cluster clusters x g.
Proof.
  assert (Hr : reachable demo_layers 1 demo_dsa).
  { apply (@reach_call demo_layers 0 (built demo_layers) cluster_r dsa_r
             demo_dsa demo_result).
    - apply reach_init. reflexivity.
    - reflexivity. }
  split; [exact Hr|].
  destruct (@clusters_are_components demo_layers 1 demo_dsa Hr)
    as (clusters & Hc & _ & Hn).
  exists clusters. split; [exact Hc | exact Hn].
Defined.

(** X7. After a second call of [cluster_all_layers] the stored list has
    [2 * n] entries, so [compress_match] builds its partition over the
    indices [0 .. 2n-1]: it returns, every such index is in exactly one
    cluster, and with a non-negative self radius in the second call the
    index [n + x], which is no point, is in the cluster of the point
    [x]. *)
Theorem second_call_doubles_universe (ls : list Layer)
  (st st1 st2 : MultiLayerCluster) (r1 r2 r1' r2' : Q)
  (res1 res2 : list (list nat)) :
  __init__ ls = Ok st ->
  cluster_all_layers st r1 r2 = Ok (st1, res1) ->
  cluster_all_layers st1 r1' r2' = Ok (st2, res2) ->
  exists clusters,
    compress_match st2 = Ok (st2, clusters) /\
    (forall g, g < 2 * length (concat ls) ->
       exists r members,
         In (r, members) clusters /\ In g members /\
         forall r' members',
           In (r', members') clusters -> In g members' ->
           r' = r /\ members' = members) /\
    ((0 <= r1')%Q ->
     forall x, x < length (concat ls) ->
               same_cluster clusters (length (concat ls) + x) x).
Proof.
  intros Hinit Hcl1 Hcl2.
  assert (Hreach1 : reachable ls 1 st1)
    by (apply (@reach_call ls 0 st r1 r2 st1 res1
                 (@reach_init ls st Hinit) Hcl1)).
  assert (Hreach2 : reachable ls 2 st2)
    by (apply (@reach_call ls 1 st1 r1' r2' st2 res2 Hreach1 Hcl2)).
  destruct (reachable_matches Hreach1) as [Hlen1 _].
  destruct (reachable_instance Hreach1) as [Hinst _].
  destruct (reachable_clusters Hreach2) as (clusters & Hc & Hsame & Hpart).
  exists clusters. split; [exact Hc|]. split; [exact Hpart|].
  intros Hr1' x Hx. apply Hsame. split; [lia|]. split; [lia|].
  rewrite (cluster_spec r1' r2' Hinst) in Hcl2.
  apply bind_ok_inv in Hcl2. destruct Hcl2 as (adj & Hadj & Hcl2).
  inversion Hcl2; subst. clear Hcl2.
  cbn [set_match_all_layers match_all_layers].
  apply rst_step. split.
  - rewrite length_app, Hlen1.
    rewrite (proj1 (@adjacency_In r1' r2' ls 0 adj Hadj)). lia.
  - rewrite app_nth2 by lia.
    replace (length (concat ls) + x - length (match_all_layers st1))
      with x by lia.
    apply (@adjacency_self r1' r2' ls adj x Hr1' Hadj Hx).
Qed.

Lemma second_call_doubles_universe_witness :
  __init__ demo_layers = Ok (built demo_layers) /\
  cluster_all_layers (built demo_layers) cluster_r dsa_r
  = Ok (demo_dsa, demo_result) /\
  cluster_all_layers demo_dsa cluster_r dsa_r
  = Ok (set_match_all_layers demo_dsa (demo_result ++ demo_result),
        demo_result ++ demo_result) /\
  (0 <= cluster_r)%Q /\
  exists clusters,
    compress_match
      (set_match_all_layers demo_dsa (demo_result ++ demo_result))
    = Ok (set_match_all_layers demo_dsa (demo_result ++ demo_result),
          clusters) /\
    forall x, x < length (concat demo_layers) ->
              same_cluster clusters (length (concat demo_layers) + x) x.
Proof.
  assert (H0 : (0 <= cluster_r)%Q) by (unfold Qle; simpl; lia).
  split; [reflexivity|]. split; [reflexivity|]. split; [reflexivity|].
  split; [exact H0|].
  destruct (@second_call_doubles_universe demo_layers (built demo_layers)
              demo_dsa
              (set_match_all_layers demo_dsa (demo_result ++ demo_result))
              cluster_r dsa_r cluster_r dsa_r demo_result
              (demo_result ++ demo_result) eq_refl eq_refl eq_refl)
    as (clusters & Hc & _ & Hx).
  exists clusters. split; [exact Hc | exact (Hx H0)].
Defined.

(** *** Global indices and layers *)

Lemma same_prefix (A : Type) (pre pre2 post post2 : list A) (l l2 : A) :
  pre ++ l :: post = pre2 ++ l2 :: post2 -> length pre = length pre2 ->
  pre = pre2 /\ l = l2 /\ post = post2.
Proof.
  revert pre2. induction pre as [|a pre IH]; intros [|a2 pre2] H Hl;
    try discriminate.
  - inversion H. auto.
  - cbn [app] in H. inversion H; subst.
    destruct (IH pre2 H2) as (-> & -> & ->); [simpl in Hl; lia | auto].
Qed.

Lemma longer_prefix (A : Type) (pre pre2 post post2 : list A) (l l2 : A) :
  pre ++ l :: post = pre2 ++ l2 :: post2 -> length pre < length pre2 ->
  exists mid, pre2 = pre ++ l :: mid /\ post = mid ++ l2 :: post2.
Proof.
  revert pre2. induction pre as [|a pre IH]; intros [|a2 pre2] H Hl;
    try (simpl in Hl; lia).
  - cbn [app] in H. inversion H; subst. exists pre2. auto.
  - cbn [app] in H. inversion H; subst.
    destruct (IH pre2 H2) as (mid & -> & ->); [simpl in Hl; lia|].
    exists mid. auto.
Qed.

Lemma layer_of_here (pre : list Layer) (l : Layer) (post : list Layer)
  (k : nat) :
  k < length l ->
  layer_of (pre ++ l :: post) (length (concat pre) + k) = length pre.
Proof.
  intros Hk. induction pre as [|l0 pre IH]; cbn [app layer_of concat length].
  - cbn [Nat.add]. destruct (Nat.ltb_spec k (length l)); [reflexivity | lia].
  - rewrite length_app.
    destruct (Nat.ltb_spec (length l0 + length (concat pre) + k) (length l0));
      [lia|].
    replace (length l0 + length (concat pre) + k - length l0)
      with (length (concat pre) + k) by lia.
    rewrite IH. reflexivity.
Qed.

Lemma located (pre : list Layer) (l : Layer) (post : list Layer)
  (k : nat) (p : Point) :
  nth_error l k = Some p ->
  length (concat pre) + k < length (concat (pre ++ l :: post)) /\
  nth (length (concat pre) + k) (concat (pre ++ l :: post)) [] = p /\
  layer_of (pre ++ l :: post) (length (concat pre) + k) = length pre.
Proof.
  intros Hk.
  assert (Hlt : k < length l) by (apply nth_error_Some; congruence).
  split; [rewrite concat_middle_length; lia|]. split.
  - apply nth_error_nth. apply nth_error_concat_here. exact Hk.
  - apply layer_of_here. exact Hlt.
Qed.

Lemma later_layers_index (post : list Layer) (k' : nat) (q : Point) :
  nth_error (concat post) k' = Some q
  <-> exists mid l2 post2 k'',
        post = mid ++ l2 :: post2 /\ k' = length (concat mid) + k'' /\
        nth_error l2 k'' = Some q.
Proof.
  split.
  - intros H.
    assert (Hlt : k' < length (concat post))
      by (apply nth_error_Some; congruence).
    destruct (@locate post k' Hlt) as (mid & l2 & post2 & k'' & p & -> & -> & Hk).
    rewrite (@nth_error_concat_here mid l2 post2 k'' p Hk) in H.
    inversion H; subst. exists mid, l2, post2, k''. auto.
  - intros (mid & l2 & post2 & k'' & -> & -> & Hk).
    apply nth_error_concat_here. exact Hk.
Qed.

Lemma sqdist_sym (p q : Point) : (sqdist p q == sqdist q p)%Q.
Proof.
  unfold sqdist. revert q.
  induction p as [|x p IH]; intros [|y q]; cbn [combine fold_right fst snd];
    try reflexivity.
  rewrite IH. ring.
Qed.

Lemma within_sym (p q : Point) (r : Q) : within p q r = within q p r.
Proof.
  unfold within. apply Qleb_comp; [apply sqdist_sym | reflexivity].
Qed.

(** *** What a neighbour list holds *)

(** X8. After one call with non-negative radii on a fresh instance, the
    neighbour list of the point [p] at position [k] of layer [i] holds
    exactly: the global
    indices of the points of layer [i] within the self radius of [p], and
    the global indices of the points of every later layer [j > i] within
    the cross-layer radius of [p]; no point of an earlier layer is ever
    listed. *)
Theorem neighbour_list_contents (ls : list Layer)
  (st st1 : MultiLayerCluster) (r1 r2 : Q) (adj : list (list nat)) :
  __init__ ls = Ok st ->
  (0 <= r1)%Q -> (0 <= r2)%Q ->
  cluster_all_layers st r1 r2 = Ok (st1, adj) ->
  forall i k p, nth_error (nth i ls []) k = Some p ->
  forall g,
    In g (nth (nth i (layer_start_idx st) 0 + k) adj [])
    <-> (exists k' q,
            g = nth i (layer_start_idx st) 0 + k' /\
            nth_error (nth i ls []) k' = Some q /\
            within p q r1 = true) \/
        (exists j k' q,
            i < j /\ g = nth j (layer_start_idx st) 0 + k' /\
            nth_error (nth j ls []) k' = Some q /\
            within p q r2 = true).
Proof.
  intros Hinit _ _ Hcl i k p Hk g.
  destruct (@fresh_cluster ls st st1 r1 r2 adj Hinit Hcl)
    as (-> & _ & Hadj & _ & _).
  cbn [built layer_start_idx].
  assert (Hi : i < length ls).
  { destruct (Nat.lt_ge_cases i (length ls)) as [H | H]; [exact H|].
    rewrite nth_overflow in Hk by exact H. destruct k; discriminate. }
  destruct (@split_layers ls i Hi) as (pre & l & post & Hls & Hpre).
  subst ls i. rewrite layer_at in Hk |- *. rewrite nth_offsets.
  destruct (@adjacency_In r1 r2 _ 0 adj Hadj) as [_ Hin].
  rewrite (Hin pre l post eq_refl k p Hk g). cbn [Nat.add].
  split; (intros [Hs | Hc]; [left; exact Hs | right]).
  - destruct Hc as (k' & q & -> & Hn & Hw).
    apply later_layers_index in Hn.
    destruct Hn as (mid & l2 & post2 & k'' & -> & -> & Hn).
    assert (E : pre ++ l :: mid ++ l2 :: post2
                = (pre ++ l :: mid) ++ l2 :: post2)
      by (rewrite <- app_assoc; reflexivity).
    exists (length (pre ++ l :: mid)), k'', q. rewrite E.
    rewrite layer_at, nth_offsets.
    split; [rewrite length_app; cbn [length]; lia|].
    split; [|auto].
    rewrite concat_app. cbn [concat]. rewrite !length_app. lia.
  - destruct Hc as (j & k' & q & Hij & -> & Hn & Hw).
    assert (Hj : j < length (pre ++ l :: post)).
    { destruct (Nat.lt_ge_cases j (length (pre ++ l :: post))) as [H | H];
        [exact H|].
      rewrite nth_overflow in Hn by exact H. destruct k'; discriminate. }
    destruct (@split_layers _ j Hj) as (pre2 & l2 & post2 & Hls & Hpre2).
    subst j.
    destruct (@longer_prefix _ pre pre2 post post2 l l2 Hls Hij)
      as (mid & -> & ->).
    assert (E : pre ++ l :: mid ++ l2 :: post2
                = (pre ++ l :: mid) ++ l2 :: post2)
      by (rewrite <- app_assoc; reflexivity).
    rewrite E in Hn |- *. rewrite layer_at in Hn. rewrite nth_offsets.
    exists (length (concat mid) + k'), q.
    split; [rewrite concat_app; cbn [concat]; rewrite !length_app; lia|].
    split; [|exact Hw].
    apply nth_error_concat_here. exact Hn.
Qed.

Lemma neighbour_list_contents_witness :
  __init__ demo_layers = Ok (built demo_layers) /\
  (0 <= cluster_r)%Q /\ (0 <= dsa_r)%Q /\
  cluster_all_layers (built demo_layers) cluster_r dsa_r
  = Ok (demo_dsa, demo_result) /\
  nth_error (nth 1 demo_layers []) 0 = Some [11 # 10; 11 # 10]%Q /\
  In 7 (nth (nth 1 (layer_start_idx (built demo_layers)) 0 + 0)
            demo_result []).
Proof.
  assert (H0 : (0 <= 2 # 10)%Q) by (unfold Qle; simpl; lia).
  split; [reflexivity|]. split; [exact H0|]. split; [exact H0|].
  split; [reflexivity|]. split; [reflexivity|].
  apply (@neighbour_list_contents demo_layers (built demo_layers) demo_dsa
           cluster_r dsa_r demo_result eq_refl H0 H0 eq_refl
           1 0 [11 # 10; 11 # 10]%Q eq_refl 7).
  right. exists 3, 0, [115 # 100; 115 # 100]%Q.
  repeat split; try reflexivity. lia.
Defined.

(** *** Clusters and the proximity graph *)

Lemma edge_near (r1 r2 : Q) (ls : list Layer) (adj : list (list nat))
  (x y : nat) :
  adjacency r1 r2 0 ls = Ok adj -> edge adj x y -> near ls r1 r2 x y.
Proof.
  intros Hadj [Hx Hy]. destruct (@adjacency_In r1 r2 ls 0 adj Hadj) as [Hlen Hin].
  rewrite Hlen in Hx.
  destruct (@locate ls x Hx) as (pre & l & post & k & p & Hls & -> & Hk).
  apply (Hin pre l post Hls k p Hk y) in Hy. subst ls. cbn [Nat.add] in Hy.
  destruct (@located pre l post k p Hk) as (Hxlt & Hxp & Hxl).
  unfold near. rewrite Hxp, Hxl.
  destruct Hy as [(k' & q & -> & Hn & Hw) | (k' & q & -> & Hn & Hw)].
  - destruct (@located pre l post k' q Hn) as (Hylt & Hyp & Hyl).
    rewrite Hyp, Hyl, Nat.eqb_refl. auto.
  - apply later_layers_index in Hn.
    destruct Hn as (mid & l2 & post2 & k'' & -> & -> & Hn).
    assert (E : pre ++ l :: mid ++ l2 :: post2
                = (pre ++ l :: mid) ++ l2 :: post2)
      by (rewrite <- app_assoc; reflexivity).
    destruct (@located (pre ++ l :: mid) l2 post2 k'' q Hn)
      as (Hylt & Hyp & Hyl).
    rewrite <- E in Hylt, Hyp, Hyl.
    assert (Ey : length (concat pre) + length l + (length (concat mid) + k'')
                 = length (concat (pre ++ l :: mid)) + k'')
      by (rewrite concat_app; cbn [concat]; rewrite !length_app; lia).
    rewrite Ey, Hyp, Hyl.
    destruct (Nat.eqb_spec (length pre) (length (pre ++ l :: mid))) as [He|_].
    + rewrite length_app in He. cbn [length] in He. lia.
    + auto.
Qed.

Lemma near_edge (r1 r2 : Q) (ls : list Layer) (adj : list (list nat))
  (x y : nat) :
  adjacency r1 r2 0 ls = Ok adj -> near ls r1 r2 x y ->
  edge adj x y \/ edge adj y x.
Proof.
  intros Hadj (Hx & Hy & Hw).
  destruct (@adjacency_In r1 r2 ls 0 adj Hadj) as [Hlen Hin].
  destruct (@locate ls x Hx) as (pre & l & post & k & p & Hls & -> & Hk).
  destruct (@locate ls y Hy) as (pre2 & l2 & post2 & k2 & q & Hls2 & -> & Hk2).
  pose proof (Hin pre l post Hls k p Hk) as Hinx.
  pose proof (Hin pre2 l2 post2 Hls2 k2 q Hk2) as Hiny.
  cbn [Nat.add] in Hinx, Hiny. rewrite <- Hlen in Hx, Hy.
  assert (Hxf := @located pre l post k p Hk).
  assert (Hyf := @located pre2 l2 post2 k2 q Hk2).
  rewrite <- Hls in Hxf. rewrite <- Hls2 in Hyf.
  destruct Hxf as (_ & Hxp & Hxl). destruct Hyf as (_ & Hyp & Hyl).
  rewrite Hxp, Hyp, Hxl, Hyl in Hw.
  rewrite Hls2 in Hls.
  destruct (Nat.lt_trichotomy (length pre) (length pre2)) as [Hlt | [Heq | Hgt]].
  - destruct (Nat.eqb_spec (length pre) (length pre2)) as [He|_]; [lia|].
    symmetry in Hls.
    destruct (@longer_prefix _ pre pre2 post post2 l l2 Hls Hlt)
      as (mid & -> & ->).
    left. split; [exact Hx|]. apply Hinx. right.
    exists (length (concat mid) + k2), q.
    split; [rewrite concat_app; cbn [concat]; rewrite !length_app; lia|].
    split; [|exact Hw]. apply nth_error_concat_here. exact Hk2.
  - rewrite Heq, Nat.eqb_refl in Hw. symmetry in Hls.
    destruct (@same_prefix _ pre pre2 post post2 l l2 Hls Heq)
      as (-> & -> & ->).
    left. split; [exact Hx|]. apply Hinx. left. exists k2, q. auto.
  - destruct (Nat.eqb_spec (length pre) (length pre2)) as [He|_]; [lia|].
    destruct (@longer_prefix _ pre2 pre post2 post l2 l Hls Hgt)
      as (mid & -> & ->).
    right. split; [exact Hy|]. apply Hiny. right.
    exists (length (concat mid) + k), p.
    split; [rewrite concat_app; cbn [concat]; rewrite !length_app; lia|].
    split; [|rewrite within_sym; exact Hw].
    apply nth_error_concat_here. exact Hk.
Qed.

Lemma connected_near (r1 r2 : Q) (ls : list Layer) (adj : list (list nat))
  (a b : nat) :
  adjacency r1 r2 0 ls = Ok adj ->
  (connected adj a b <-> clos_refl_sym_trans nat (near ls r1 r2) a b).
Proof.
  intros Hadj. unfold connected. split; intros H;
    induction H as [a b Hab | a | a b _ IH | a b c _ IH1 _ IH2];
    try apply rst_refl; try (apply rst_sym; exact IH);
    try (apply rst_trans with b; assumption).
  - apply rst_step. apply (@edge_near r1 r2 ls adj a b Hadj Hab).
  - destruct (@near_edge r1 r2 ls adj a b Hadj Hab) as [He | He];
      [apply rst_step | apply rst_sym, rst_step]; exact He.
Qed.

(** X9. The clusters are the connected components of the proximity graph:
    after one call with non-negative radii on a fresh instance, two
    global indices share a
    cluster exactly when a chain of points joins them in which each
    point is within the self radius of the next one when both are in one
    layer, and within the cross-layer radius when they are in two
    different layers.  Recording each cross-layer match only at the point
    of the earlier layer loses nothing. *)
Theorem clusters_are_proximity_components (ls : list Layer)
  (st st1 : MultiLayerCluster) (r1 r2 : Q) (adj : list (list nat)) :
  __init__ ls = Ok st ->
  (0 <= r1)%Q -> (0 <= r2)%Q ->
  cluster_all_layers st r1 r2 = Ok (st1, adj) ->
  exists clusters,
    compress_match st1 = Ok (st1, clusters) /\
    forall a b,
      same_cluster clusters a b
      <-> a < length (concat ls) /\ b < length (concat ls) /\
          clos_refl_sym_trans nat (near ls r1 r2) a b.
Proof.
  intros Hinit _ _ Hcl.
  destruct (@fresh_cluster ls st st1 r1 r2 adj Hinit Hcl)
    as (-> & _ & Hadj & -> & _).
  pose proof (proj1 (@adjacency_In r1 r2 ls 0 adj Hadj)) as Hlen.
  assert (Hclosed : closed_adj
            (match_all_layers (set_match_all_layers (built ls) adj)))
    by (apply (@adjacency_closed r1 r2 ls adj Hadj)).
  destruct (@compress_match_clusters _ Hclosed)
    as (clusters & Hc & _ & Hsame & _).
  cbn [set_match_all_layers match_all_layers] in Hsame.
  exists clusters. split; [exact Hc|]. intros a b.
  rewrite Hsame, Hlen, (@connected_near r1 r2 ls adj a b Hadj). reflexivity.
Qed.

Lemma clusters_are_proximity_components_witness :
  __init__ demo_layers = Ok (built demo_layers) /\
  (0 <= cluster_r)%Q /\ (0 <= dsa_r)%Q /\
  cluster_all_layers (built demo_layers) cluster_r dsa_r
  = Ok (demo_dsa, demo_result) /\
  exists clusters,
    compress_match demo_dsa = Ok (demo_dsa, clusters) /\
    forall a b,
      same_cluster clusters a b
      <-> a < length (concat demo_layers) /\
          b < length (concat demo_layers) /\
          clos_refl_sym_trans nat (near demo_layers cluster_r dsa_r) a b.
Proof.
  assert (H0 : (0 <= 2 # 10)%Q) by (unfold Qle; simpl; lia).
  split; [reflexivity|]. split; [exact H0|]. split; [exact H0|].
  split; [reflexivity|].
  apply (@clusters_are_proximity_components demo_layers (built demo_layers)
           demo_dsa cluster_r dsa_r demo_result eq_refl H0 H0 eq_refl).
Defined.

(** *** The order of the layers *)

Lemma coords (ls : list Layer) (x : nat) :
  x < length (concat ls) ->
  layer_of ls x < length ls /\
  x = nth (layer_of ls x) (offsets 0 ls) 0
      + (x - nth (layer_of ls x) (offsets 0 ls) 0) /\
  nth_error (nth (layer_of ls x) ls [])
            (x - nth (layer_of ls x) (offsets 0 ls) 0)
  = Some (nth x (concat ls) []).
Proof.
  intros Hx.
  destruct (@locate ls x Hx) as (pre & l & post & k & p & -> & -> & Hk).
  destruct (@located pre l post k p Hk) as (_ & Hp & Hl).
  rewrite Hl, Hp, nth_offsets, layer_at.
  replace (length (concat pre) + k - length (concat pre)) with k by lia.
  split; [rewrite length_app; cbn [length]; lia|]. split; [lia | exact Hk].
Qed.

Lemma coords_inv (ls : list Layer) (i k : nat) (p : Point) :
  nth_error (nth i ls []) k = Some p ->
  nth i (offsets 0 ls) 0 + k < length (concat ls) /\
  nth (nth i (offsets 0 ls) 0 + k) (concat ls) [] = p /\
  layer_of ls (nth i (offsets 0 ls) 0 + k) = i /\
  nth i (offsets 0 ls) 0 + k - nth i (offsets 0 ls) 0 = k.
Proof.
  intros Hk.
  assert (Hi : i < length ls).
  { destruct (Nat.lt_ge_cases i (length ls)) as [H | H]; [exact H|].
    rewrite nth_overflow in Hk by exact H. destruct k; discriminate. }
  destruct (@split_layers ls i Hi) as (pre & l & post & -> & <-).
  rewrite layer_at in Hk. rewrite nth_offsets.
  destruct (@located pre l post k p Hk) as (H1 & H2 & H3).
  repeat split; try assumption. lia.
Qed.

Lemma layer_perm_sym (ls ls' : list Layer) (f f' : nat -> nat) :
  layer_perm ls ls' f f' -> layer_perm ls' ls f' f.
Proof.
  intros (Hlen & Hf & Hf'). split; [symmetry; exact Hlen|].
  rewrite Hlen. split.
  - intros j Hj. destruct (Hf' j Hj) as [Hlt Hinv].
    destruct (Hf (f' j) Hlt) as (_ & _ & Hnth).
    rewrite Hinv in Hnth. auto.
  - intros i Hi. destruct (Hf i Hi) as (Hlt & Hinv & _). auto.
Qed.

Lemma layer_perm_In (ls ls' : list Layer) (f f' : nat -> nat) (l : Layer) :
  layer_perm ls ls' f f' -> In l ls' -> In l ls.
Proof.
  intros (Hlen & Hf & Hf') Hin.
  destruct (In_nth ls' l [] Hin) as (j & Hj & <-). rewrite Hlen in Hj.
  destruct (Hf' j Hj) as [Hlt Hinv].
  destruct (Hf (f' j) Hlt) as (_ & _ & Hnth).
  rewrite Hinv in Hnth. rewrite Hnth. apply nth_In. exact Hlt.
Qed.

Lemma relabel_coords (ls ls' : list Layer) (f f' : nat -> nat) (x : nat) :
  layer_perm ls ls' f f' -> x < length (concat ls) ->
  relabel ls ls' f x < length (concat ls') /\
  nth (relabel ls ls' f x) (concat ls') [] = nth x (concat ls) [] /\
  layer_of ls' (relabel ls ls' f x) = f (layer_of ls x) /\
  relabel ls' ls f' (relabel ls ls' f x) = x.
Proof.
  intros (Hlen & Hf & Hf') Hx.
  destruct (@coords ls x Hx) as (Hi & Hxeq & Hk).
  destruct (Hf _ Hi) as (Hlt & Hinv & Hnth).
  rewrite <- Hnth in Hk.
  destruct (@coords_inv ls' _ _ _ Hk) as (H1 & H2 & H3 & H4).
  fold (relabel ls ls' f x) in H1, H2, H3, H4.
  repeat split; try assumption.
  unfold relabel at 1. rewrite H3, Hinv, H4. symmetry. exact Hxeq.
Qed.

Lemma near_relabel (ls ls' : list Layer) (f f' : nat -> nat) (r1 r2 : Q)
  (x y : nat) :
  layer_perm ls ls' f f' -> near ls r1 r2 x y ->
  near ls' r1 r2 (relabel ls ls' f x) (relabel ls ls' f y).
Proof.
  intros Hperm (Hx & Hy & Hw).
  destruct (@relabel_coords ls ls' f f' x Hperm Hx) as (Hx1 & Hx2 & Hx3 & _).
  destruct (@relabel_coords ls ls' f f' y Hperm Hy) as (Hy1 & Hy2 & Hy3 & _).
  unfold near. rewrite Hx2, Hy2, Hx3, Hy3.
  split; [exact Hx1|]. split; [exact Hy1|].
  destruct Hperm as (_ & Hf & _).
  destruct (Hf _ (proj1 (@coords ls x Hx))) as (_ & Hix & _).
  destruct (Hf _ (proj1 (@coords ls y Hy))) as (_ & Hiy & _).
  destruct (Nat.eqb_spec (layer_of ls x) (layer_of ls y)) as [He | Hne].
  - rewrite He, Nat.eqb_refl. exact Hw.
  - destruct (Nat.eqb_spec (f (layer_of ls x)) (f (layer_of ls y)))
      as [He | _]; [|exact Hw].
    exfalso. apply Hne. rewrite <- Hix, <- Hiy, He. reflexivity.
Qed.

Lemma near_closure_relabel (ls ls' : list Layer) (f f' : nat -> nat)
  (r1 r2 : Q) (a b : nat) :
  layer_perm ls ls' f f' ->
  clos_refl_sym_trans nat (near ls r1 r2) a b ->
  clos_refl_sym_trans nat (near ls' r1 r2)
    (relabel ls ls' f a) (relabel ls ls' f b).
Proof.
  intros Hperm H.
  induction H as [a b Hab | a | a b _ IH | a b c _ IH1 _ IH2].
  - apply rst_step. apply (@near_relabel ls ls' f f' r1 r2 a b Hperm Hab).
  - apply rst_refl.
  - apply rst_sym. exact IH.
  - apply rst_trans with (relabel ls ls' f b); assumption.
Qed.

(** X10. The clusters do not depend on the order of the layers: when the
    same layers are given in another order, the constructor and
    [cluster_all_layers] return as before, and two points share a cluster
    in one run exactly when they do in the other, each point taken at its
    position in its own layer. *)
Theorem layer_order_independent (ls ls' : list Layer) (f f' : nat -> nat)
  (st st1 : MultiLayerCluster) (r1 r2 : Q) (adj : list (list nat)) :
  layer_perm ls ls' f f' ->
  __init__ ls = Ok st ->
  cluster_all_layers st r1 r2 = Ok (st1, adj) ->
  exists clusters st' st1' adj' clusters',
    compress_match st1 = Ok (st1, clusters) /\
    __init__ ls' = Ok st' /\
    cluster_all_layers st' r1 r2 = Ok (st1', adj') /\
    compress_match st1' = Ok (st1', clusters') /\
    forall a b, a < length (concat ls) -> b < length (concat ls) ->
      (same_cluster clusters a b
       <-> same_cluster clusters' (relabel ls ls' f a) (relabel ls ls' f b)).
Proof.
  intros Hperm Hinit Hcl.
  destruct (@fresh_cluster ls st st1 r1 r2 adj Hinit Hcl)
    as (-> & Hu & Hadj & -> & _).
  assert (Hcons : consistent ls = true)
    by (rewrite <- (adjacency_ok r1 r2 ls 0), Hadj; reflexivity).
  apply (consistent_same_dimension Hu) in Hcons.
  assert (Hu' : each_uniform ls').
  { intros l p q Hl. apply (Hu l).
    apply (@layer_perm_In ls ls' f f' l Hperm Hl). }
  assert (Hcons' : consistent ls' = true).
  { apply (consistent_same_dimension Hu'). intros la lb p q Hla Hlb.
    apply Hcons; [apply (@layer_perm_In ls ls' f f' la Hperm Hla)|
                  apply (@layer_perm_In ls ls' f f' lb Hperm Hlb)]. }
  rewrite <- (adjacency_ok r1 r2 ls' 0) in Hcons'.
  apply is_ok_true in Hcons'. destruct Hcons' as [adj' Hadj'].
  pose proof (proj1 (@adjacency_In r1 r2 ls 0 adj Hadj)) as Hlen.
  pose proof (proj1 (@adjacency_In r1 r2 ls' 0 adj' Hadj')) as Hlen'.
  assert (Hc1 : closed_adj
            (match_all_layers (set_match_all_layers (built ls) adj)))
    by (apply (@adjacency_closed r1 r2 ls adj Hadj)).
  assert (Hc2 : closed_adj
            (match_all_layers (set_match_all_layers (built ls') adj')))
    by (apply (@adjacency_closed r1 r2 ls' adj' Hadj')).
  destruct (@compress_match_clusters _ Hc1) as (c1 & Hcm1 & _ & Hs1 & _).
  destruct (@compress_match_clusters _ Hc2) as (c2 & Hcm2 & _ & Hs2 & _).
  cbn [set_match_all_layers match_all_layers] in Hs1, Hs2.
  exists c1, (built ls'), (set_match_all_layers (built ls') adj'), adj', c2.
  split; [exact Hcm1|]. split; [|split; [|split; [exact Hcm2|]]].
  - rewrite init_spec. apply each_uniform_iff in Hu'. rewrite Hu'.
    reflexivity.
  - rewrite (cluster_spec r1 r2 (built_instance ls')), Hadj'. reflexivity.
  - intros a b Ha Hb.
    destruct (@relabel_coords ls ls' f f' a Hperm Ha) as (Ha' & _ & _ & Hia).
    destruct (@relabel_coords ls ls' f f' b Hperm Hb) as (Hb' & _ & _ & Hib).
    rewrite Hs1, Hs2, Hlen, Hlen'.
    rewrite (@connected_near r1 r2 ls adj a b Hadj).
    rewrite (@connected_near r1 r2 ls' adj' _ _ Hadj').
    split.
    + intros (_ & _ & H). split; [exact Ha'|]. split; [exact Hb'|].
      apply (@near_closure_relabel ls ls' f f' r1 r2 a b Hperm H).
    + intros (_ & _ & H). split; [exact Ha|]. split; [exact Hb|].
      apply (@near_closure_relabel ls' ls f' f r1 r2 _ _
               (layer_perm_sym Hperm)) in H.
      rewrite Hia, Hib in H. exact H.
Qed.

Lemma layer_order_independent_witness :
  layer_perm demo_layers [l4; l3; l2; l1] (fun i => 3 - i) (fun i => 3 - i) /\
  __init__ demo_layers = Ok (built demo_layers) /\
  cluster_all_layers (built demo_layers) cluster_r dsa_r
  = Ok (demo_dsa, demo_result) /\
  exists clusters st' st1' adj' clusters',
    compress_match demo_dsa = Ok (demo_dsa, clusters) /\
    __init__ [l4; l3; l2; l1] = Ok st' /\
    cluster_all_layers st' cluster_r dsa_r = Ok (st1', adj') /\
    compress_match st1' = Ok (st1', clusters') /\
    forall a b, a < length (concat demo_layers) ->
                b < length (concat demo_layers) ->
      (same_cluster clusters a b
       <-> same_cluster clusters'
             (relabel demo_layers [l4; l3; l2; l1] (fun i => 3 - i) a)
             (relabel demo_layers [l4; l3; l2; l1] (fun i => 3 - i) b)).
Proof.
  assert (Hperm : layer_perm demo_layers [l4; l3; l2; l1]
                    (fun i => 3 - i) (fun i => 3 - i)).
  { split; [reflexivity|]. split.
    - intros i Hi. cbn [demo_layers length] in Hi.
      destruct i as [|[|[|[|i]]]]; [| | | |lia];
        (split; [simpl; lia | split; reflexivity]).
    - intros j Hj. cbn [demo_layers length] in Hj |- *. lia. }
  split; [exact Hperm|]. split; [reflexivity|]. split; [reflexivity|].
  apply (@layer_order_independent demo_layers [l4; l3; l2; l1]
           (fun i => 3 - i) (fun i => 3 - i) (built demo_layers) demo_dsa
           cluster_r dsa_r demo_result Hperm eq_refl eq_refl).
Defined.

(** *** Each match is recorded once, and in one direction *)

Lemma NoDup_map_fst_filter (A B : Type) (f : A * B -> bool)
  (l : list (A * B)) :
  NoDup (map fst l) -> NoDup (map fst (filter f l)).
Proof.
  induction l as [|a l IH]; intros H; [constructor|].
  cbn [map] in H. inversion H as [|? ? Hn Hnd]; subst.
  cbn [filter]. destruct (f a); [|apply IH, Hnd].
  cbn [map]. constructor; [|apply IH, Hnd].
  intros Hin. apply Hn. apply in_map_iff in Hin.
  destruct Hin as (x & Hx & Hin). apply filter_In in Hin.
  apply in_map_iff. exists x. split; [exact Hx | apply Hin].
Qed.

Lemma map_fst_enumerate (A : Type) (l : list A) (s : nat) :
  map fst (combine (seq s (length l)) l) = seq s (length l).
Proof.
  revert s. induction l as [|x l IH]; intros s; [reflexivity|].
  cbn [length seq combine map fst]. rewrite IH. reflexivity.
Qed.

Lemma ball_NoDup (pts : list Point) (p : Point) (r : Q) :
  NoDup (ball pts p r).
Proof.
  unfold ball. apply NoDup_map_fst_filter. unfold enumerate.
  rewrite map_fst_enumerate. apply seq_NoDup.
Qed.

Lemma NoDup_shift (l : list nat) (s : nat) :
  NoDup l -> NoDup (map (fun x => x + s) l).
Proof.
  intros H. apply NoDup_map_NoDup_ForallPairs; [|exact H].
  intros x y _ _ Hxy. lia.
Qed.

Lemma shift_idx_nth (mm : list (list nat)) (s k : nat) :
  nth k (_shift_idx mm s) [] = map (fun x => x + s) (nth k mm []).
Proof.
  unfold _shift_idx.
  change (@nil nat) with (map (fun match_idx => match_idx + s) []) at 1.
  apply map_nth.
Qed.

Lemma cross_query_NoDup (ti : KDTree) (lj : Layer) (r : Q)
  (mij : list (list nat)) (k : nat) :
  match tree_of lj with
  | Some tj => query_ball_tree ti tj r
  | None => Ok (map (fun _ => []) (range 0 (length (data ti))))
  end = Ok mij ->
  NoDup (nth k mij []).
Proof.
  intros H. destruct (tree_of lj) as [tj|].
  - destruct (nth_error (data ti) k) as [p|] eqn:Hk.
    + rewrite (query_nth _ _ _ _ H Hk). apply ball_NoDup.
    + apply nth_error_None in Hk. rewrite nth_overflow; [constructor|].
      rewrite (query_length _ _ _ H). exact Hk.
  - inversion H. rewrite nth_const_nil. constructor.
Qed.

Lemma cross_from_NoDup (ti : KDTree) (r : Q) (rest : list Layer) :
  forall off acc res,
    cross_from ti r off rest acc = Ok res ->
    length acc = length (data ti) ->
    (forall k, NoDup (nth k acc []) /\
               forall g, In g (nth k acc []) -> g < off) ->
    forall k, NoDup (nth k res []).
Proof.
  induction rest as [|lj rest IH]; intros off acc res Hres Hacc Hinv k.
  - inversion Hres; subst. apply Hinv.
  - cbn [cross_from] in Hres. apply bind_ok_inv in Hres.
    destruct Hres as (mij & Hmij & Hres).
    pose proof (fun k => @cross_query_NoDup ti lj r mij k Hmij) as Hnd.
    apply cross_query_bound in Hmij. destruct Hmij as [Hlen Hb].
    assert (Hz : length acc = length (_shift_idx mij off))
      by (rewrite shift_idx_length; lia).
    apply (IH _ _ _ Hres); [rewrite zip_app_length; assumption|].
    intros k'. rewrite (zip_app_nth _ _ k' Hz), shift_idx_nth.
    destruct (Hinv k') as [Hn Hlt]. split.
    + apply NoDup_app; [exact Hn | apply NoDup_shift, Hnd|].
      intros a Ha Ha'. apply in_map_iff in Ha'.
      destruct Ha' as (j & <- & _). specialize (Hlt _ Ha). lia.
    + intros g Hg. apply in_app_or in Hg. destruct Hg as [Hg | Hg].
      * specialize (Hlt g Hg). lia.
      * apply in_map_iff in Hg. destruct Hg as (j & <- & Hj).
        specialize (Hb k' j Hj). lia.
Qed.

Lemma layer_adj_NoDup (r1 r2 : Q) (off : nat) (l : Layer) (rest : list Layer)
  (this : list (list nat)) (k : nat) :
  layer_adj r1 r2 off l rest = Ok this -> NoDup (nth k this []).
Proof.
  unfold layer_adj. destruct (tree_of l) as [ti|] eqn:Hti.
  - pose proof (tree_of_data _ Hti) as Hd. intros H.
    apply bind_ok_inv in H. destruct H as (mii & Hq & H).
    pose proof (query_length _ _ _ Hq) as Hlen.
    apply (cross_from_NoDup _ _ _ _ H);
      [rewrite shift_idx_length; exact Hlen|].
    intros k'. rewrite shift_idx_nth.
    destruct (nth_error (data ti) k') as [p|] eqn:Hk.
    + rewrite (query_nth _ _ _ _ Hq Hk). split.
      * apply NoDup_shift, ball_NoDup.
      * intros g Hg. apply in_map_iff in Hg. destruct Hg as (j & <- & Hj).
        apply ball_In in Hj. destruct Hj as (q & Hn & _). rewrite Hd in Hn.
        assert (j < length l) by (apply nth_error_Some; congruence). lia.
    + apply nth_error_None in Hk. rewrite nth_overflow by lia.
      split; [constructor | intros g []].
  - intros H. inversion H. destruct k; constructor.
Qed.

Lemma adjacency_NoDup (r1 r2 : Q) (ls : list Layer) :
  forall off adj k, adjacency r1 r2 off ls = Ok adj -> NoDup (nth k adj []).
Proof.
  induction ls as [|l rest IH]; intros off adj k Hadj.
  - inversion Hadj. destruct k; constructor.
  - cbn [adjacency] in Hadj. apply bind_ok_inv in Hadj.
    destruct Hadj as (this & Hthis & Hadj).
    apply bind_ok_inv in Hadj. destruct Hadj as (more & Hmore & Hadj).
    inversion Hadj; subst adj.
    destruct (Nat.lt_ge_cases k (length this)) as [Hk | Hk].
    + rewrite app_nth1 by exact Hk.
      apply (@layer_adj_NoDup r1 r2 off l rest this k Hthis).
    + rewrite app_nth2 by exact Hk. apply (IH _ _ _ Hmore).
Qed.

Lemma edge_layer_le (r1 r2 : Q) (ls : list Layer) (adj : list (list nat))
  (x y : nat) :
  adjacency r1 r2 0 ls = Ok adj -> edge adj x y ->
  layer_of ls x <= layer_of ls y.
Proof.
  intros Hadj [Hx Hy].
  destruct (@adjacency_In r1 r2 ls 0 adj Hadj) as [Hlen Hin].
  rewrite Hlen in Hx.
  destruct (@locate ls x Hx) as (pre & l & post & k & p & Hls & -> & Hk).
  apply (Hin pre l post Hls k p Hk y) in Hy. subst ls. cbn [Nat.add] in Hy.
  destruct (@located pre l post k p Hk) as (_ & _ & Hxl). rewrite Hxl.
  destruct Hy as [(k' & q & -> & Hn & _) | (k' & q & -> & Hn & _)].
  - destruct (@located pre l post k' q Hn) as (_ & _ & Hyl). lia.
  - apply later_layers_index in Hn.
    destruct Hn as (mid & l2 & post2 & k'' & -> & -> & Hn).
    destruct (@located (pre ++ l :: mid) l2 post2 k'' q Hn)
      as (_ & _ & Hyl).
    rewrite <- app_assoc in Hyl. cbn [app] in Hyl.
    replace (length (concat pre) + length l + (length (concat mid) + k''))
      with (length (concat (pre ++ l :: mid)) + k'')
      by (rewrite concat_app; cbn [concat]; rewrite !length_app; lia).
    rewrite Hyl, length_app. lia.
Qed.

Lemma edge_iff_near (r1 r2 : Q) (ls : list Layer) (adj : list (list nat))
  (x y : nat) :
  adjacency r1 r2 0 ls = Ok adj ->
  (edge adj x y <-> near ls r1 r2 x y /\ layer_of ls x <= layer_of ls y).
Proof.
  intros Hadj. split.
  - intros H. split; [apply (@edge_near r1 r2 ls adj x y Hadj H)|].
    apply (@edge_layer_le r1 r2 ls adj x y Hadj H).
  - intros [Hn Hle].
    destruct (@near_edge r1 r2 ls adj x y Hadj Hn) as [He | He];
      [exact He|].
    pose proof (@edge_layer_le r1 r2 ls adj y x Hadj He) as Hge.
    assert (Heq : layer_of ls x = layer_of ls y) by lia.
    assert (Hn' : near ls r1 r2 y x).
    { apply (@edge_near r1 r2 ls adj y x Hadj He). }
    (* both in one layer: the match of [x] at [y] is recorded as well *)
    destruct Hn as (Hx & Hy & Hw).
    destruct (@adjacency_In r1 r2 ls 0 adj Hadj) as [Hlen Hin].
    destruct (@locate ls x Hx) as (pre & l & post & k & p & Hls & -> & Hk).
    destruct (@locate ls y Hy)
      as (pre2 & l2 & post2 & k2 & q & Hls2 & -> & Hk2).
    assert (Hxf := @located pre l post k p Hk).
    assert (Hyf := @located pre2 l2 post2 k2 q Hk2).
    rewrite <- Hls in Hxf. rewrite <- Hls2 in Hyf.
    destruct Hxf as (_ & Hxp & Hxl). destruct Hyf as (_ & Hyp & Hyl).
    rewrite Hxp, Hyp, Hxl, Hyl in Hw. rewrite Hxl, Hyl in Heq.
    rewrite Heq, Nat.eqb_refl in Hw.
    pose proof Hls as Hls'. rewrite Hls2 in Hls'. symmetry in Hls'.
    destruct (@same_prefix _ pre pre2 post post2 l l2 Hls' Heq)
      as (-> & -> & ->).
    split; [rewrite Hlen; exact Hx|].
    apply (Hin pre2 l2 post2 Hls k p Hk). left. exists k2, q. auto.
Qed.

Lemma In_entry_edge (adj : list (list nat)) (x y : nat) :
  In y (nth x adj []) <-> edge adj x y.
Proof.
  unfold edge. split; [|intros [_ H]; exact H].
  intros H. split; [|exact H].
  destruct (Nat.lt_ge_cases x (length adj)) as [Hx | Hx]; [exact Hx|].
  rewrite nth_overflow in H by exact Hx. destruct H.
Qed.

Lemma near_sym (ls : list Layer) (r1 r2 : Q) (x y : nat) :
  near ls r1 r2 x y -> near ls r1 r2 y x.
Proof.
  intros (Hx & Hy & Hw). split; [exact Hy|]. split; [exact Hx|].
  rewrite within_sym, Nat.eqb_sym. exact Hw.
Qed.

(** X11. After one call on a fresh instance no neighbour list holds an
    index twice: every match is recorded once in the list it is recorded
    in. *)
Theorem neighbour_lists_duplicate_free (ls : list Layer)
  (st st1 : MultiLayerCluster) (r1 r2 : Q) (adj : list (list nat)) :
  __init__ ls = Ok st ->
  cluster_all_layers st r1 r2 = Ok (st1, adj) ->
  forall x, NoDup (nth x adj []).
Proof.
  intros Hinit Hcl x.
  destruct (@fresh_cluster ls st st1 r1 r2 adj Hinit Hcl)
    as (_ & _ & Hadj & _ & _).
  apply (@adjacency_NoDup r1 r2 ls 0 adj x Hadj).
Qed.

Lemma neighbour_lists_duplicate_free_witness :
  __init__ demo_layers = Ok (built demo_layers) /\
  cluster_all_layers (built demo_layers) cluster_r dsa_r
  = Ok (demo_dsa, demo_result) /\
  forall x, NoDup (nth x demo_result []).
Proof.
  split; [reflexivity|]. split; [reflexivity|].
  apply (@neighbour_lists_duplicate_free demo_layers (built demo_layers)
           demo_dsa cluster_r dsa_r demo_result eq_refl eq_refl).
Defined.

(** X12. The neighbour lists grow with the radii: for non-negative radii
    [r1 <= r1'] and [r2 <= r2'], when the call with [(r1, r2)] returns on
    a fresh instance, so does the call with [(r1', r2')], with as many
    neighbour lists, and each of them holds every index the smaller radii
    gave. *)
Theorem neighbour_lists_grow_with_radii (ls : list Layer)
  (st st1 : MultiLayerCluster) (r1 r2 r1' r2' : Q) (adj1 : list (list nat)) :
  __init__ ls = Ok st ->
  (0 <= r1)%Q -> (r1 <= r1')%Q -> (0 <= r2)%Q -> (r2 <= r2')%Q ->
  cluster_all_layers st r1 r2 = Ok (st1, adj1) ->
  exists st2 adj2,
    cluster_all_layers st r1' r2' = Ok (st2, adj2) /\
    length adj2 = length adj1 /\
    forall x g, In g (nth x adj1 []) -> In g (nth x adj2 []).
Proof.
  intros Hinit H01 Hr1 H02 Hr2 Hcl.
  destruct (@fresh_cluster ls st st1 r1 r2 adj1 Hinit Hcl)
    as (-> & _ & Hadj1 & -> & _).
  assert (Hok : is_ok (adjacency r1' r2' 0 ls) = true)
    by (rewrite adjacency_ok, <- (adjacency_ok r1 r2 ls 0), Hadj1;
        reflexivity).
  apply is_ok_true in Hok. destruct Hok as [adj2 Hadj2].
  destruct (@adjacency_In r1 r2 ls 0 adj1 Hadj1) as [Hlen1 Hin1].
  destruct (@adjacency_In r1' r2' ls 0 adj2 Hadj2) as [Hlen2 Hin2].
  exists (set_match_all_layers (built ls) adj2), adj2.
  split; [|split; [lia|]].
  - rewrite (cluster_spec r1' r2' (built_instance ls)), Hadj2. reflexivity.
  - intros x g Hg. apply In_entry_edge in Hg. destruct Hg as [Hx Hg].
    rewrite Hlen1 in Hx.
    destruct (@locate ls x Hx) as (pre & l & post & k & p & Hls & -> & Hk).
    apply (Hin2 pre l post Hls k p Hk).
    apply (Hin1 pre l post Hls k p Hk) in Hg.
    destruct Hg as [(k' & q & Hg & Hn & Hw) | (k' & q & Hg & Hn & Hw)];
      [left | right]; exists k', q; repeat split; try assumption.
    + apply (within_mono _ _ H01 Hr1 Hw).
    + apply (within_mono _ _ H02 Hr2 Hw).
Qed.

Lemma neighbour_lists_grow_with_radii_witness :
  __init__ demo_layers = Ok (built demo_layers) /\
  (0 <= cluster_r)%Q /\ (cluster_r <= 3 # 10)%Q /\
  (0 <= dsa_r)%Q /\ (dsa_r <= 3 # 10)%Q /\
  cluster_all_layers (built demo_layers) cluster_r dsa_r
  = Ok (demo_dsa, demo_result) /\
  exists st2 adj2,
    cluster_all_layers (built demo_layers) (3 # 10) (3 # 10)
    = Ok (st2, adj2) /\
    length adj2 = length demo_result /\
    forall x g, In g (nth x demo_result []) -> In g (nth x adj2 []).
Proof.
  assert (H0 : (0 <= 2 # 10)%Q) by (unfold Qle; simpl; lia).
  assert (H1 : (2 # 10 <= 3 # 10)%Q) by (unfold Qle; simpl; lia).
  split; [reflexivity|]. repeat (split; [assumption|]).
  split; [reflexivity|].
  apply (@neighbour_lists_grow_with_radii demo_layers (built demo_layers)
           demo_dsa cluster_r dsa_r (3 # 10) (3 # 10) demo_result
           eq_refl H0 H1 H0 H1 eq_refl).
Defined.

(** X13. Matches are stored in one direction: after one call with
    non-negative radii on a fresh instance the index [y] is in the neighbour list of [x] exactly when
    the two points are adjacent in the proximity graph and the layer of
    [x] is not after the layer of [y].  So a match inside one layer is
    recorded at both points, and a match across two layers only at the
    point of the earlier layer. *)
Theorem matches_directed (ls : list Layer) (st st1 : MultiLayerCluster)
  (r1 r2 : Q) (adj : list (list nat)) :
  __init__ ls = Ok st ->
  (0 <= r1)%Q -> (0 <= r2)%Q ->
  cluster_all_layers st r1 r2 = Ok (st1, adj) ->
  (forall x y, In y (nth x adj [])
               <-> near ls r1 r2 x y /\ layer_of ls x <= layer_of ls y) /\
  (forall x y, layer_of ls x = layer_of ls y ->
               In y (nth x adj []) -> In x (nth y adj [])) /\
  (forall x y, layer_of ls y < layer_of ls x -> ~ In y (nth x adj [])).
Proof.
  intros Hinit _ _ Hcl.
  destruct (@fresh_cluster ls st st1 r1 r2 adj Hinit Hcl)
    as (_ & _ & Hadj & _ & _).
  assert (Hiff : forall x y, In y (nth x adj [])
            <-> near ls r1 r2 x y /\ layer_of ls x <= layer_of ls y).
  { intros x y. rewrite In_entry_edge.
    apply (@edge_iff_near r1 r2 ls adj x y Hadj). }
  split; [exact Hiff|]. split.
  - intros x y Heq H. apply Hiff in H. destruct H as [Hn _].
    apply Hiff. split; [apply near_sym, Hn | lia].
  - intros x y Hlt H. apply Hiff in H. lia.
Qed.

Lemma matches_directed_witness :
  __init__ demo_layers = Ok (built demo_layers) /\
  (0 <= cluster_r)%Q /\ (0 <= dsa_r)%Q /\
  cluster_all_layers (built demo_layers) cluster_r dsa_r
  = Ok (demo_dsa, demo_result) /\
  (forall x y, layer_of demo_layers y < layer_of demo_layers x ->
               ~ In y (nth x demo_result [])).
Proof.
  assert (H0 : (0 <= 2 # 10)%Q) by (unfold Qle; simpl; lia).
  split; [reflexivity|]. split; [exact H0|]. split; [exact H0|].
  split; [reflexivity|].
  apply (@matches_directed demo_layers (built demo_layers) demo_dsa
           cluster_r dsa_r demo_result eq_refl H0 H0 eq_refl).
Defined.

(** *** Two points that are far apart *)

(** X14. One layer of two points that are farther apart than a
    non-negative self radius: whenever the constructor and
    [cluster_all_layers] return, the neighbour lists are [[0]] and [[1]],
    and [compress_match] returns two clusters of one point each, whatever
    the cross-layer radius. *)
Theorem two_far_points (p q : Point) (r1 r2 : Q)
  (st st1 : MultiLayerCluster) (adj : list (list nat)) :
  (0 <= r1)%Q ->
  (r1 * r1 < sqdist p q)%Q ->
  __init__ [[p; q]] = Ok st ->
  cluster_all_layers st r1 r2 = Ok (st1, adj) ->
  adj = [[0]; [1]] /\
  compress_match st1 = Ok (st1, [(0, [0]); (1, [1])]).
Proof.
  intros Hr1 Hfar Hinit Hcl.
  assert (Hw : within p q r1 = false).
  { unfold within. destruct (Qle_bool (sqdist p q) (r1 * r1)) eqn:Hb;
      [|reflexivity].
    apply Qle_bool_iff in Hb. exfalso. apply (Qlt_not_le _ _ Hfar Hb). }
  destruct (@init_ok_built [[p; q]] st Hinit) as [-> _].
  rewrite (cluster_spec r1 r2 (built_instance [[p; q]])) in Hcl.
  cbn [adjacency layer_adj tree_of cross_from] in Hcl.
  unfold query_ball_tree in Hcl. cbn [m data] in Hcl.
  rewrite Nat.eqb_refl in Hcl. cbn [map bind] in Hcl.
  unfold ball, enumerate in Hcl. cbn [length seq combine filter snd] in Hcl.
  rewrite (within_self p Hr1), (within_self q Hr1), Hw in Hcl.
  rewrite (within_sym q p), Hw in Hcl.
  cbn in Hcl. inversion Hcl; subst. split; reflexivity.
Qed.

Lemma two_far_points_witness :
  (0 <= 4)%Q /\ (4 * 4 < sqdist [0; 0] [3; 4])%Q /\
  __init__ [[[0; 0]; [3; 4]]]%Q = Ok (built [[[0; 0]; [3; 4]]]%Q) /\
  cluster_all_layers (built [[[0; 0]; [3; 4]]]%Q) 4 1
  = Ok (set_match_all_layers (built [[[0; 0]; [3; 4]]]%Q) [[0]; [1]],
        [[0]; [1]]) /\
  compress_match
    (set_match_all_layers (built [[[0; 0]; [3; 4]]]%Q) [[0]; [1]])
  = Ok (set_match_all_layers (built [[[0; 0]; [3; 4]]]%Q) [[0]; [1]],
        [(0, [0]); (1, [1])]).
Proof.
  assert (H0 : (0 <= 4)%Q) by (unfold Qle; simpl; lia).
  assert (H1 : (4 * 4 < sqdist [0; 0] [3; 4])%Q) by reflexivity.
  split; [exact H0|]. split; [exact H1|].
  split; [reflexivity|]. split; [reflexivity|].
  apply (@two_far_points [0; 0]%Q [3; 4]%Q 4 1
           (built [[[0; 0]; [3; 4]]]%Q)
           (set_match_all_layers (built [[[0; 0]; [3; 4]]]%Q) [[0]; [1]])
           [[0]; [1]] H0 H1 eq_refl eq_refl).
Defined.

(** *** Radii and dimensionality are not validated *)

Lemma point_in_layer (ls : list Layer) (x : nat) :
  x < length (concat ls) ->
  nth_error (concat ls) x = Some (nth x (concat ls) []) /\
  exists l, In l ls /\ In (nth x (concat ls) []) l.
Proof.
  intros Hx. split; [apply nth_error_nth'; exact Hx|].
  apply in_concat. apply nth_In. exact Hx.
Qed.

Lemma zero_radius_match (ls : list Layer) (st st1 : MultiLayerCluster)
  (r1 r2 : Q) (adj : list (list nat)) (x g : nat) :
  __init__ ls = Ok st ->
  cluster_all_layers st r1 r2 = Ok (st1, adj) ->
  In g (nth x adj []) ->
  (if layer_of ls x =? layer_of ls g then r1 else r2) = 0%Q ->
  exists p q,
    nth_error (layers_combined st) x = Some p /\
    nth_error (layers_combined st) g = Some q /\
    coincident p q.
Proof.
  intros Hinit Hcl Hg Hr.
  destruct (@fresh_cluster ls st st1 r1 r2 adj Hinit Hcl)
    as (-> & Hu & Hadj & _ & _).
  assert (Hcons : consistent ls = true)
    by (rewrite <- (adjacency_ok r1 r2 ls 0), Hadj; reflexivity).
  apply (consistent_same_dimension Hu) in Hcons.
  apply In_entry_edge in Hg.
  destruct (@edge_near r1 r2 ls adj x g Hadj Hg) as (Hx & Hgl & Hw).
  rewrite Hr in Hw. cbn [built layers_combined].
  destruct (@point_in_layer ls x Hx) as (Hpx & la & Hla & Hpa).
  destruct (@point_in_layer ls g Hgl) as (Hpg & lb & Hlb & Hpb).
  exists (nth x (concat ls) []), (nth g (concat ls) []).
  split; [exact Hpx|]. split; [exact Hpg|].
  apply within_zero; [|exact Hw].
  apply (Hcons la lb _ _ Hla Hlb Hpa Hpb).
Qed.

(** C2, as the code has it.  [cluster_all_layers] does not look at the
    sign of a radius: on a fresh instance, whether the call returns or
    raises is the same for all radii, negative ones included.  A zero
    radius is legal like any other and matches only exactly coincident
    points: with a zero self radius a point is matched with a point of
    its own layer only if the two have the same coordinates, and with a
    zero cross-layer radius it is matched with a point of another layer
    only if the two have the same coordinates. *)
Theorem radius_not_validated (ls : list Layer) (st : MultiLayerCluster) :
  __init__ ls = Ok st ->
  (forall r1 r2 r1' r2',
     is_ok (cluster_all_layers st r1 r2)
     = is_ok (cluster_all_layers st r1' r2')) /\
  (forall r2 st1 adj x g,
     cluster_all_layers st 0 r2 = Ok (st1, adj) ->
     In g (nth x adj []) ->
     layer_of ls x = layer_of ls g ->
     exists p q,
       nth_error (layers_combined st) x = Some p /\
       nth_error (layers_combined st) g = Some q /\
       coincident p q) /\
  (forall r1 st1 adj x g,
     cluster_all_layers st r1 0 = Ok (st1, adj) ->
     In g (nth x adj []) ->
     layer_of ls x <> layer_of ls g ->
     exists p q,
       nth_error (layers_combined st) x = Some p /\
       nth_error (layers_combined st) g = Some q /\
       coincident p q).
Proof.
  intros Hinit. split; [|split].
  - intros r1 r2 r1' r2'.
    rewrite (@cluster_is_ok ls st r1 r2 Hinit),
      (@cluster_is_ok ls st r1' r2' Hinit).
    reflexivity.
  - intros r2 st1 adj x g Hcl Hg Hl.
    apply (@zero_radius_match ls st st1 0 r2 adj x g Hinit Hcl Hg).
    rewrite Hl, Nat.eqb_refl. reflexivity.
  - intros r1 st1 adj x g Hcl Hg Hl.
    apply (@zero_radius_match ls st st1 r1 0 adj x g Hinit Hcl Hg).
    destruct (Nat.eqb_spec (layer_of ls x) (layer_of ls g)) as [He | _];
      [contradiction | reflexivity].
Qed.

Lemma radius_not_validated_witness :
  __init__ [[[0; 0]]; [[0; 0]; [0; 1]]]%Q
  = Ok (built [[[0; 0]]; [[0; 0]; [0; 1]]]%Q) /\
  is_ok (cluster_all_layers (built [[[0; 0]]; [[0; 0]; [0; 1]]]%Q)
           (-1 # 1) (-1 # 1))
  = is_ok (cluster_all_layers (built [[[0; 0]]; [[0; 0]; [0; 1]]]%Q) 0 0) /\
  (forall st1 adj x g,
     cluster_all_layers (built [[[0; 0]]; [[0; 0]; [0; 1]]]%Q) 1 0
     = Ok (st1, adj) ->
     In g (nth x adj []) ->
     layer_of [[[0; 0]]; [[0; 0]; [0; 1]]]%Q x
     <> layer_of [[[0; 0]]; [[0; 0]; [0; 1]]]%Q g ->
     exists p q,
       nth_error (layers_combined (built [[[0; 0]]; [[0; 0]; [0; 1]]]%Q)) x
       = Some p /\
       nth_error (layers_combined (built [[[0; 0]]; [[0; 0]; [0; 1]]]%Q)) g
       = Some q /\
       coincident p q).
Proof.
  split; [reflexivity|].
  destruct (@radius_not_validated [[[0; 0]]; [[0; 0]; [0; 1]]]%Q
              (built [[[0; 0]]; [[0; 0]; [0; 1]]]%Q) eq_refl)
    as (Hok & _ & Hcross).
  split; [apply Hok | apply Hcross].
Defined.

(** C3, as the code has it.  A mismatch of dimensionality is surfaced as
    an error, but not always by the constructor and not before any index
    is built.  The constructor builds the index of each layer on its own:
    it returns for a sequence of layers exactly when it returns for each
    of the layers alone, and when it returns the points of every single
    layer agree in dimensionality.  Layers that differ from one another
    are thus not refused by it; the mismatch is then raised, as a
    [ValueError], by the radius queries of [cluster_all_layers]. *)
Theorem dimension_checked_by_queries (ls : list Layer) :
  is_ok (__init__ ls) = forallb (fun l => is_ok (__init__ [l])) ls /\
  (is_ok (__init__ ls) = true -> each_uniform ls) /\
  forall st r1 r2,
    __init__ ls = Ok st -> ~ same_dimension ls ->
    cluster_all_layers st r1 r2 = Raise ValueError.
Proof.
  split; [|split].
  - rewrite init_spec.
    replace (forallb (fun l => is_ok (__init__ [l])) ls)
      with (forallb uniform ls).
    + destruct (forallb uniform ls); reflexivity.
    + induction ls as [|l ls IH]; [reflexivity|]. cbn [forallb].
      rewrite IH, (init_spec [l]). cbn [forallb]. rewrite andb_true_r.
      destruct (uniform l); reflexivity.
  - rewrite init_spec. intros H. apply each_uniform_iff.
    destruct (forallb uniform ls); [reflexivity | discriminate].
  - intros st r1 r2 Hinit Hmix.
    pose proof (@cluster_is_ok ls st r1 r2 Hinit) as Hok.
    destruct (@init_ok_built ls st Hinit) as [-> Hu].
    apply each_uniform_iff in Hu.
    destruct (cluster_all_layers (built ls) r1 r2) as [out|e] eqn:Hcl.
    + exfalso. apply Hmix. apply (consistent_same_dimension Hu).
      symmetry. exact Hok.
    + rewrite (cluster_spec r1 r2 (built_instance ls)) in Hcl.
      destruct (adjacency r1 r2 0 ls) as [adj|e'] eqn:Hadj;
        cbn [bind] in Hcl; [discriminate|].
      inversion Hcl; subst. f_equal.
      apply (adjacency_raise _ _ _ _ Hadj).
Qed.

Lemma dimension_checked_by_queries_witness :
  __init__ [[[0; 0]; [1; 1]]; [[0; 0; 0]]]%Q
  = Ok (built [[[0; 0]; [1; 1]]; [[0; 0; 0]]]%Q) /\
  ~ same_dimension [[[0; 0]; [1; 1]]; [[0; 0; 0]]]%Q /\
  cluster_all_layers (built [[[0; 0]; [1; 1]]; [[0; 0; 0]]]%Q) 1 1
  = Raise ValueError.
Proof.
  assert (Hmix : ~ same_dimension [[[0; 0]; [1; 1]]; [[0; 0; 0]]]%Q).
  { intros H.
    specialize (H [[0; 0]; [1; 1]]%Q [[0; 0; 0]]%Q [0; 0]%Q [0; 0; 0]%Q).
    cbn in H. assert (E : 2 = 3) by (apply H; auto). discriminate. }
  split; [reflexivity|]. split; [exact Hmix|].
  apply (@dimension_checked_by_queries [[[0; 0]; [1; 1]]; [[0; 0; 0]]]%Q).
  - reflexivity.
  - exact Hmix.
Defined.
